(** * ProductGenie: CSV ingestion and row normalisation

    A shallow embedding of the CSV path of
    [src/components/ProductInputForm.tsx]: the text-level parser
    ([parseCsv]), the competitor-column toggle
    ([handleCompetitorHeaderToggle]) and the submit handler
    ([handleSubmit]) with its per-row reducer.

    Modelling conventions.
    - A JavaScript string is a sequence of UTF-16 code units; the model
      uses [string] and therefore covers the code units below 256, an
      [ascii] standing for the code unit with the same number.
    - A CSV row object ([Record<string, string>]) is made by the
      literal [{}] and filled with strings: the model keeps its own
      properties in a [gmap string string] and reads every other
      property from [Object.prototype], so that a read gives a string,
      [undefined] or an inherited member, and a method call on an
      inherited member throws a [TypeError].
    - The text of the message of a [TypeError] is chosen by the
      JavaScript engine; [handleSubmit] takes it as a parameter.
    - A JavaScript number is an IEEE-754 binary64 value, modelled with the
      standard library's [spec_float] at precision 53 and [emax] 1024.
    - React state is passed explicitly: a handler takes the component
      state and returns the next state together with the request handed
      to [onAnalyze], if any; [onAnalyze] is the asynchronous
      [handleAnalysis] of the application and does not throw. *)

From Stdlib Require Import ZArith Ascii String SpecFloat.
From stdpp Require Import gmap strings list pretty.

Local Open Scope string_scope.
Local Open Scope list_scope.
Local Open Scope nat_scope.

(** ** Characters and string primitives *)

Module Char.
Definition LF : ascii := "010"%char.
Definition CR : ascii := "013"%char.
Definition dquote : ascii := "034"%char.
Definition comma : ascii := ","%char.

(** ECMAScript [WhiteSpace] and [LineTerminator] code units below 256:
    TAB, LF, VT, FF, CR, SP and NBSP. *)
Definition is_white_space (c : ascii) : bool :=
  let n := N_of_ascii c in
  ((9 <=? n) && (n <=? 13) || (n =? 32) || (n =? 160))%N.

(** The class [[0-9]]. *)
Definition is_digit (c : ascii) : bool :=
  let n := N_of_ascii c in ((48 <=? n) && (n <=? 57))%N.

(** The complement of the class [[^0-9.-]]. *)
Definition is_price_char (c : ascii) : bool :=
  is_digit c || Ascii.eqb c "." || Ascii.eqb c "-".
End Char.

Module Str.
(** [String.prototype.trimStart] / [trimEnd] / [trim]. *)
Fixpoint trimStart (s : string) : string :=
  match s with
  | "" => ""
  | String c s' => if Char.is_white_space c then trimStart s' else s
  end.

Fixpoint trimEnd (s : string) : string :=
  match s with
  | "" => ""
  | String c s' =>
      match trimEnd s' with
      | "" => if Char.is_white_space c then "" else String c ""
      | t => String c t
      end
  end.

Definition trim (s : string) : string := trimEnd (trimStart s).

(** [s.replace(/\r\n/g, '\n')]. *)
Fixpoint replace_crlf (s : string) : string :=
  match s with
  | "" => ""
  | String c s' =>
      match s' with
      | String d s'' =>
          if Ascii.eqb c Char.CR && Ascii.eqb d Char.LF
          then String Char.LF (replace_crlf s'')
          else String c (replace_crlf s')
      | "" => String c ""
      end
  end.

(** [String.prototype.split] for a separator that matches exactly one
    code unit: [sep c rest] tells whether the code unit [c], followed
    by [rest] up to the end of the string, is a separator. *)
Fixpoint split_where (sep : ascii → string → bool) (s : string) : list string :=
  match s with
  | "" => [""]
  | String c s' =>
      if sep c s' then "" :: split_where sep s'
      else match split_where sep s' with
           | field :: fields => String c field :: fields
           | [] => [String c ""]
           end
  end.

(** [s.split(c)] for a one-character string [c]. *)
Definition split (c : ascii) : string → list string :=
  split_where (λ d _, Ascii.eqb d c).

Fixpoint count (c : ascii) (s : string) : nat :=
  match s with
  | "" => 0
  | String d s' => (if Ascii.eqb d c then 1 else 0) + count c s'
  end.

(** [s.replace(/^Q|Q$/g, '')], writing Q for the double quote: the
    first alternative can only match at offset 0 and the second only
    on the last code unit. *)
Definition strip_leading_quote (s : string) : string :=
  match s with
  | String c s' => if Ascii.eqb c Char.dquote then s' else s
  | "" => ""
  end.

Fixpoint strip_trailing_quote (s : string) : string :=
  match s with
  | "" => ""
  | String c s' =>
      match s' with
      | "" => if Ascii.eqb c Char.dquote then "" else s
      | _ => String c (strip_trailing_quote s')
      end
  end.

Definition strip_quotes (s : string) : string :=
  strip_trailing_quote (strip_leading_quote s).

(** [s.replace(/[^0-9.-]+/g, '')]. *)
Fixpoint strip_non_price (s : string) : string :=
  match s with
  | "" => ""
  | String c s' =>
      if Char.is_price_char c then String c (strip_non_price s')
      else strip_non_price s'
  end.

(** [Array.prototype.join] on an array of strings. *)
Fixpoint join (sep : string) (l : list string) : string :=
  match l with
  | [] => ""
  | [x] => x
  | x :: l' => x +:+ sep +:+ join sep l'
  end.

(** What follows the prefix [p] in [s], when [s] starts with [p]. *)
Fixpoint drop_prefix (p s : string) : option string :=
  match p, s with
  | "", _ => Some s
  | String a p', String b s' => if Ascii.eqb a b then drop_prefix p' s' else None
  | String _ _, "" => None
  end.

(** [String.prototype.includes] and [String.prototype.endsWith]. *)
Fixpoint includes (needle s : string) : bool :=
  match drop_prefix needle s, s with
  | Some _, _ => true
  | None, String _ s' => includes needle s'
  | None, "" => false
  end.

Fixpoint endsWith (suffix s : string) : bool :=
  if decide (s = suffix) then true
  else match s with
       | String _ s' => endsWith suffix s'
       | "" => false
       end.

(** [s] occurs in [t] as a contiguous substring. *)
Definition occurs_in (s t : string) : Prop :=
  ∃ pre post, t = pre +:+ s +:+ post.

Definition all_white_space (s : string) : Prop :=
  Forall (λ c, Char.is_white_space c = true) (list_ascii_of_string s).

Global Instance all_white_space_dec s : Decision (all_white_space s).
Proof. unfold all_white_space. apply _. Defined.
End Str.

(** A line feed as a string, and a string put between double quotes,
    for writing CSV text. *)
Definition nl : string := String Char.LF "".
Definition quoted (s : string) : string :=
  String Char.dquote (s +:+ String Char.dquote "").

(** [Array.prototype.reduce] with the element index passed to the
    callback. *)
Fixpoint reduce_from {A B} (f : B → A → nat → B) (index : nat) (l : list A) (acc : B) : B :=
  match l with
  | [] => acc
  | x :: l' => reduce_from f (S index) l' (f acc x index)
  end.

Definition reduce {A B} (f : B → A → nat → B) (l : list A) (init : B) : B :=
  reduce_from f 0 l init.

(** ** Row objects *)

(** What reading a property of a row gives: [undefined], a string, or
    the member of [Object.prototype] of that name, which is a function
    and for [__proto__] the prototype object itself. *)
Inductive Value :=
  | undefined
  | str (s : string)
  | inherited (member : string).

Global Instance Value_eq_dec : EqDecision Value.
Proof. solve_decision. Defined.

(** [Boolean(v)] *)
Definition truthy (v : Value) : Prop :=
  match v with
  | undefined => False
  | str s => s ≠ ""
  | inherited _ => True
  end.

Global Instance truthy_dec v : Decision (truthy v).
Proof. destruct v; simpl; apply _. Defined.

(** [v || ''] *)
Definition or_empty (v : Value) : Value :=
  if decide (truthy v) then v else str "".

Module Row.
(** The property names of [Object.prototype]. *)
Definition object_prototype : list string :=
  ["constructor"; "hasOwnProperty"; "isPrototypeOf"; "propertyIsEnumerable";
   "toLocaleString"; "toString"; "valueOf"; "__proto__";
   "__defineGetter__"; "__defineSetter__"; "__lookupGetter__";
   "__lookupSetter__"].

(** [row[key]]: an own property first, then the prototype. *)
Definition get (row : gmap string string) (key : string) : Value :=
  match row !! key with
  | Some s => str s
  | None => if decide (key ∈ object_prototype) then inherited key else undefined
  end.

(** [obj[key] = v] for a string [v].  The name [__proto__] is an
    accessor of the prototype whose setter ignores a string, so nothing
    is stored unless the object has an own property of that name; every
    other member of the prototype is a writable data property, and the
    assignment makes an own property as for any other name. *)
Definition set (obj : gmap string string) (key v : string) : gmap string string :=
  if decide (key = "__proto__" ∧ obj !! key = None) then obj
  else <[key := v]> obj.
End Row.

(** ** Exceptions *)

(** The [TypeError]s of the engine: a call of something that is not a
    function, named by the source text of the callee, and a property
    read on [undefined]. *)
Inductive TypeError :=
  | not_a_function (callee : string)
  | cannot_read_properties (property : string).

Global Instance TypeError_eq_dec : EqDecision TypeError.
Proof. solve_decision. Defined.

(** The outcome of code that may throw. *)
Inductive Completion (A : Type) : Type :=
  | normal (value : A)
  | throw (error : TypeError).
Arguments normal {A} value.
Arguments throw {A} error.

Global Instance Completion_ret : MRet Completion := λ A, normal.
Global Instance Completion_bind : MBind Completion := λ A B f c,
  match c with
  | normal a => f a
  | throw e => throw e
  end.

(** [v.trim()], written [callee] in the source. *)
Definition call_trim (callee : string) (v : Value) : Completion string :=
  match v with
  | str s => normal (Str.trim s)
  | inherited _ => throw (not_a_function callee)
  | undefined => throw (cannot_read_properties "trim")
  end.

(** [v.replace(/[^0-9.-]+/g, "")], written [callee] in the source. *)
Definition call_replace_non_price (callee : string) (v : Value) : Completion string :=
  match v with
  | str s => normal (Str.strip_non_price s)
  | inherited _ => throw (not_a_function callee)
  | undefined => throw (cannot_read_properties "replace")
  end.

(** [Array.prototype.reduce] with a callback that may throw. *)
Fixpoint reduce_from_throwing {A B} (f : B → A → nat → Completion B)
    (index : nat) (l : list A) (acc : B) : Completion B :=
  match l with
  | [] => normal acc
  | x :: l' => acc' ← f acc x index; reduce_from_throwing f (S index) l' acc'
  end.

Definition reduce_throwing {A B} (f : B → A → nat → Completion B)
    (l : list A) (init : B) : Completion B :=
  reduce_from_throwing f 0 l init.

(** ** The CSV parser (lines 67-99) *)

Inductive Promise (A : Type) : Type :=
  | Resolved (value : A)
  | Rejected (message : string).
Arguments Resolved {A} value.
Arguments Rejected {A} message.

Record RawCsvTable := {
  headers : list string;
  data : list (gmap string string);
}.

(** The separator regex [/,(?=(?:(?:[^Q]*Q){2})*[^Q]*$)/], writing Q for
    the double quote: a comma whose lookahead succeeds, which it does
    exactly when the rest of the line holds an even number of double
    quotes. *)
Definition regex_comma (c : ascii) (rest : string) : bool :=
  Ascii.eqb c Char.comma && Nat.even (Str.count Char.dquote rest).

(** [row.split(regex).map(val => val.trim().replace(/^Q|Q$/g, ''))] *)
Definition row_values (row : string) : list string :=
  (λ val, Str.strip_quotes (Str.trim val)) <$> Str.split_where regex_comma row.

(** The callback of [headers.reduce]: [obj[header] = values[index] || '']. *)
Definition assign_cell (values : list string)
    (obj : gmap string string) (header : string) (index : nat) : gmap string string :=
  Row.set obj header (default "" (values !! index)).

Definition row_object (headers : list string) (row : string) : gmap string string :=
  reduce (assign_cell (row_values row)) headers ∅.

(** The non-blank, trimmed lines of the file. *)
Definition csv_lines (text : string) : list string :=
  filter (λ row, row ≠ "")
    (Str.trim <$> Str.split Char.LF (Str.replace_crlf text)).

Definition format_error : string :=
  "CSV file must contain a header row and at least one data row.".

(** The handler [reader.onload] of [parseCsv] (lines 70-95), on the text
    read from the file. *)
Definition parseCsv (text : string) : Promise RawCsvTable :=
  let rows := csv_lines text in
  if length rows <? 2 then Rejected format_error
  else
    let headerRow := hd "" rows in
    let rows := tl rows in
    let headers := Str.trim <$> Str.split Char.comma headerRow in
    Resolved {| headers := headers; data := row_object headers <$> rows |}.

(** ** Numbers and [parseFloat] *)

(** A JavaScript number is a binary64 value. *)
Abbreviation number := spec_float.

Module Number.
Definition prec : Z := 53.
Definition emax : Z := 1024.

Definition NaN : number := S754_nan.

Definition isNaN (x : number) : bool :=
  match x with S754_nan => true | _ => false end.

Definition isFinite (x : number) : bool :=
  match x with S754_zero _ | S754_finite _ _ _ => true | _ => false end.

(** [x >= 0] on numbers; false for NaN. *)
Definition is_nonnegative (x : number) : bool :=
  match x with
  | S754_zero _ => true
  | S754_infinity s | S754_finite s _ _ => negb s
  | S754_nan => false
  end.

Definition pow10 (k : Z) : positive := Z.to_pos (10 ^ k).

(** The number nearest to [(-1)^neg * m * 10^e10], ties to even: the
    rounding of the mathematical value of a decimal literal.  (For a
    literal of more than 20 significant digits ECMAScript also allows
    the rounding of either neighbour of its 20-digit truncation; engines
    round the exact value.) *)
Definition of_decimal (neg : bool) (m : N) (e10 : Z) : number :=
  match m with
  | N0 => S754_zero neg
  | Npos p =>
      SFdiv prec emax
        (S754_finite neg (p * pow10 (Z.max 0 e10)) 0)
        (S754_finite false (pow10 (Z.max 0 (- e10))) 0)
  end.
End Number.

(** The grammar [StrDecimalLiteral] of ECMAScript, scanned greedily. *)
Module Scan.
Fixpoint span_digits (s : string) : string * string :=
  match s with
  | "" => ("", "")
  | String c s' =>
      if Char.is_digit c
      then let '(ds, rest) := span_digits s' in (String c ds, rest)
      else ("", s)
  end.

Definition digit_value (c : ascii) : N := (N_of_ascii c - 48)%N.

Fixpoint digits_value_from (acc : N) (s : string) : N :=
  match s with
  | "" => acc
  | String c s' => digits_value_from (10 * acc + digit_value c)%N s'
  end.

Definition digits_value : string → N := digits_value_from 0.

Definition take_sign (s : string) : bool * string :=
  match s with
  | String c s' =>
      if Ascii.eqb c "-" then (true, s')
      else if Ascii.eqb c "+" then (false, s')
      else (false, s)
  | "" => (false, "")
  end.

(** [ExponentPart], optional: the exponent and the rest of the input. *)
Definition exponent (s : string) : Z * string :=
  match s with
  | String c s1 =>
      if Ascii.eqb c "e" || Ascii.eqb c "E" then
        let '(neg, s2) := take_sign s1 in
        let '(ds, s3) := span_digits s2 in
        if decide (ds = "") then (0%Z, s)
        else ((if neg then Z.opp else id) (Z.of_N (digits_value ds)), s3)
      else (0%Z, s)
  | "" => (0%Z, "")
  end.

(** [StrUnsignedDecimalLiteral]: the value of the longest prefix of
    [s] that is one, and what follows it. *)
Definition unsigned (neg : bool) (s : string) : option (number * string) :=
  match Str.drop_prefix "Infinity" s with
  | Some rest => Some (S754_infinity neg, rest)
  | None =>
      let '(ip, r1) := span_digits s in
      let '(fp, r2) :=
        match r1 with
        | String c r =>
            if Ascii.eqb c "." then span_digits r else ("", r1)
        | "" => ("", r1)
        end in
      if decide (ip = "" ∧ fp = "") then None
      else
        let '(e, r3) := exponent r2 in
        Some (Number.of_decimal neg (digits_value (ip +:+ fp))
                (e - Z.of_nat (String.length fp)), r3)
  end.

Definition literal (s : string) : option (number * string) :=
  let '(neg, s1) := take_sign s in unsigned neg s1.
End Scan.

(** The grammar itself (ECMAScript, StringNumericLiteral), as
    predicates on strings.  The three numeric alternatives of
    [StrUnsignedDecimalLiteral] share their optional [ExponentPart], so
    the part before it is given a name of its own here. *)
Module Grammar.
(** [DecimalDigits], possibly empty. *)
Definition digits (s : string) : Prop :=
  Forall (λ c, Char.is_digit c = true) (list_ascii_of_string s).

Definition DecimalDigits (s : string) : Prop := s ≠ "" ∧ digits s.

Inductive SignedInteger : string → Prop :=
  | SI_digits ds : DecimalDigits ds → SignedInteger ds
  | SI_plus ds : DecimalDigits ds → SignedInteger (String "+" ds)
  | SI_minus ds : DecimalDigits ds → SignedInteger (String "-" ds).

Inductive ExponentPart : string → Prop :=
  | EP_lower si : SignedInteger si → ExponentPart (String "e" si)
  | EP_upper si : SignedInteger si → ExponentPart (String "E" si).

Inductive Mantissa : string → Prop :=
  | M_int_dot ip fp :
      DecimalDigits ip → digits fp → Mantissa (ip +:+ String "." fp)
  | M_dot fp : DecimalDigits fp → Mantissa (String "." fp)
  | M_int ip : DecimalDigits ip → Mantissa ip.

Inductive StrUnsignedDecimalLiteral : string → Prop :=
  | SUDL_infinity : StrUnsignedDecimalLiteral "Infinity"
  | SUDL_mantissa m : Mantissa m → StrUnsignedDecimalLiteral m
  | SUDL_exponent m ex :
      Mantissa m → ExponentPart ex → StrUnsignedDecimalLiteral (m +:+ ex).

Inductive StrDecimalLiteral : string → Prop :=
  | SDL_unsigned u : StrUnsignedDecimalLiteral u → StrDecimalLiteral u
  | SDL_plus u : StrUnsignedDecimalLiteral u → StrDecimalLiteral (String "+" u)
  | SDL_minus u : StrUnsignedDecimalLiteral u → StrDecimalLiteral (String "-" u).

(** The digits of a mantissa and the number of those after its dot: its
    mathematical value is [significand m / 10 ^ fraction_digits m]. *)
Fixpoint keep_digits (s : string) : string :=
  match s with
  | "" => ""
  | String c s' =>
      if Char.is_digit c then String c (keep_digits s') else keep_digits s'
  end.

Definition significand (m : string) : N := Scan.digits_value (keep_digits m).

Fixpoint fraction_digits (s : string) : nat :=
  match s with
  | "" => 0
  | String c s' =>
      if Ascii.eqb c "." then String.length s' else fraction_digits s'
  end.

(** The string [r] does not start with a character satisfying [f]. *)
Definition no_head (f : ascii → bool) (r : string) : Prop :=
  match r with
  | String c _ => f c = false
  | "" => True
  end.

(** [p] is a literal and no longer prefix of [p +:+ rest] is one. *)
Definition longest_literal (p rest : string) : Prop :=
  StrDecimalLiteral p
  ∧ ∀ q r, p +:+ rest = q +:+ r → StrDecimalLiteral q →
           String.length q ≤ String.length p.
End Grammar.

(** The global [parseFloat], applied to a string. *)
Definition parseFloat (s : string) : number :=
  match Scan.literal (Str.trimStart s) with
  | Some (value, _) => value
  | None => Number.NaN
  end.

(** ** The form: field mapping, products and component state *)

Module FieldMapping.
Record t := {
  productName : string;
  currentPrice : string;
  userProductUrl : string;
  competitorUrls : list string;
}.

Definition empty : t :=
  {| productName := ""; currentPrice := ""; userProductUrl := "";
     competitorUrls := [] |}.
End FieldMapping.

(** [CsvProduct] of [src/types.ts], with the values the fields hold at
    run time: what was read from the row. *)
Module CsvProduct.
Record t := {
  productName : Value;
  currentPrice : number;
  userProductUrl : Value;
  competitorUrls : list Value;
}.
End CsvProduct.

Inductive InputMode := url | csv.

(** The argument of [onAnalyze]. *)
Inductive AnalysisInput :=
  | UrlInput (userProductUrl : string) (competitorUrls : list string)
  | CsvInput (products : list CsvProduct.t).

(** A DOM [File]; [text] is what [FileReader.readAsText] reads from it,
    and [None] when the read fails. *)
Record File := { name : string; type : string; text : option string }.

Record State := {
  inputMode : InputMode;
  userProductUrl : string;
  competitorUrls : list string;
  csvFile : option File;
  csvError : option string;
  csvHeaders : list string;
  csvData : list (gmap string string);
  fieldMapping : FieldMapping.t;
}.

Definition setCsvError (e : option string) (st : State) : State :=
  {| inputMode := inputMode st; userProductUrl := userProductUrl st;
     competitorUrls := competitorUrls st; csvFile := csvFile st;
     csvError := e; csvHeaders := csvHeaders st; csvData := csvData st;
     fieldMapping := fieldMapping st |}.

Definition setCsvData (d : list (gmap string string)) (st : State) : State :=
  {| inputMode := inputMode st; userProductUrl := userProductUrl st;
     competitorUrls := competitorUrls st; csvFile := csvFile st;
     csvError := csvError st; csvHeaders := csvHeaders st; csvData := d;
     fieldMapping := fieldMapping st |}.

Definition setFieldMapping (m : FieldMapping.t) (st : State) : State :=
  {| inputMode := inputMode st; userProductUrl := userProductUrl st;
     competitorUrls := competitorUrls st; csvFile := csvFile st;
     csvError := csvError st; csvHeaders := csvHeaders st; csvData := csvData st;
     fieldMapping := m |}.

Definition setInputMode (m : InputMode) (st : State) : State :=
  {| inputMode := m; userProductUrl := userProductUrl st;
     competitorUrls := competitorUrls st; csvFile := csvFile st;
     csvError := csvError st; csvHeaders := csvHeaders st; csvData := csvData st;
     fieldMapping := fieldMapping st |}.

(** The state of a freshly mounted form (lines 14-33). *)
Definition initial_state : State :=
  {| inputMode := url;
     userProductUrl := "https://www.example-store.com/products/pro-camera-x1";
     competitorUrls :=
       ["https://www.competitor-a.com/pro-camera-x1";
        "https://www.competitor-b.com/cameras/pro-cam-x1-model"];
     csvFile := None; csvError := None; csvHeaders := []; csvData := [];
     fieldMapping := FieldMapping.empty |}.

Definition file_type_error : string :=
  "Invalid file type. Please upload a .csv file.".

Definition read_error : string := "Failed to read the file.".

(** [parseCsv] (lines 67-99): the promise settled by [reader.onload] or
    by [reader.onerror]. *)
Definition parseCsvFile (file : File) : Promise RawCsvTable :=
  match text file with
  | Some content => parseCsv content
  | None => Rejected read_error
  end.

(** [handleFileChange] (lines 44-65). *)
Definition handleFileChange (file : option File) (st : State) : State :=
  let st :=
    {| inputMode := inputMode st; userProductUrl := userProductUrl st;
       competitorUrls := competitorUrls st; csvFile := file;
       csvError := None; csvHeaders := []; csvData := [];
       fieldMapping := FieldMapping.empty |} in
  match file with
  | None => st
  | Some f =>
      if negb (Str.includes "csv" (type f)) && negb (Str.endsWith ".csv" (name f))
      then setCsvError (Some file_type_error) st
      else
        match parseCsvFile f with
        | Resolved table =>
            {| inputMode := inputMode st; userProductUrl := userProductUrl st;
               competitorUrls := competitorUrls st; csvFile := csvFile st;
               csvError := csvError st; csvHeaders := headers table;
               csvData := data table; fieldMapping := fieldMapping st |}
        | Rejected message => setCsvError (Some message) st
        end
  end.

(** The state update of [handleCompetitorHeaderToggle] (lines 101-108). *)
Definition handleCompetitorHeaderToggle (header : string) (prev : FieldMapping.t) : FieldMapping.t :=
  let newCompetitorUrls :=
    if decide (header ∈ FieldMapping.competitorUrls prev)
    then filter (λ h, h ≠ header) (FieldMapping.competitorUrls prev)
    else FieldMapping.competitorUrls prev ++ [header] in
  {| FieldMapping.productName := FieldMapping.productName prev;
     FieldMapping.currentPrice := FieldMapping.currentPrice prev;
     FieldMapping.userProductUrl := FieldMapping.userProductUrl prev;
     FieldMapping.competitorUrls := newCompetitorUrls |}.

(** ** The row normaliser (lines 127-160) *)

Record Acc := {
  validProducts : list CsvProduct.t;
  errors : list string;
}.

(** A template placeholder applied to a value.  The text of a built-in
    function is spelled as V8 does; the reducer interpolates the price
    cell only after [replace] was called on it, so never an inherited
    member. *)
Definition interpolate (v : Value) : string :=
  match v with
  | undefined => "undefined"
  | str s => s
  | inherited member =>
      if decide (member = "__proto__") then "[object Object]"
      else "function " +:+ member +:+ "() { [native code] }"
  end.

Definition price_missing (rowNum : nat) : string :=
  "Row " +:+ pretty rowNum +:+ ": Price is missing.".

Definition price_invalid (rowNum : nat) (cell : Value) : string :=
  "Row " +:+ pretty rowNum +:+ ": Invalid price value "
    +:+ String Char.dquote (interpolate cell) +:+ String Char.dquote ".".

(** The callback of [csvData.reduce]. *)
Definition normalize_row (fieldMapping : FieldMapping.t)
    (acc : Acc) (row : gmap string string) (index : nat) : Completion Acc :=
  let rowNum := index + 2 in
  let productName := Row.get row (FieldMapping.productName fieldMapping) in
  blank ← (if decide (truthy productName)
           then trimmed ← call_trim "productName.trim" productName;
                normal (bool_decide (trimmed = ""))
           else normal true);
  if blank : bool then normal acc
  else
    let priceCell := Row.get row (FieldMapping.currentPrice fieldMapping) in
    priceString ←
      call_replace_non_price "(row[fieldMapping.currentPrice] || '').replace"
        (or_empty priceCell);
    if decide (priceString = "") then
      normal {| validProducts := validProducts acc;
                errors := errors acc ++ [price_missing rowNum] |}
    else
      let price := parseFloat priceString in
      if Number.isNaN price then
        normal {| validProducts := validProducts acc;
                  errors := errors acc ++ [price_invalid rowNum priceCell] |}
      else
        let competitorUrls :=
          filter truthy
            (Row.get row <$> FieldMapping.competitorUrls fieldMapping) in
        normal
          {| validProducts := validProducts acc ++
               [ {| CsvProduct.productName := productName;
                    CsvProduct.currentPrice := price;
                    CsvProduct.userProductUrl :=
                      or_empty (Row.get row (FieldMapping.userProductUrl fieldMapping));
                    CsvProduct.competitorUrls := competitorUrls |} ];
             errors := errors acc |}.

Definition normalize (fieldMapping : FieldMapping.t)
    (csvData : list (gmap string string)) : Completion Acc :=
  reduce_throwing (normalize_row fieldMapping) csvData
    {| validProducts := []; errors := [] |}.

(** ** The submit handler (lines 110-179) *)

Definition select_file_error : string := "Please select a CSV file.".

Definition mapping_error : string :=
  "You must map columns for 'Product Name' and 'Current Price'.".

Definition empty_batch_message : string :=
  "The CSV contains no rows that could be analyzed.".

Definition analysis_failed (errors : list string) : string :=
  "Analysis failed. " +:+
    (if decide (0 < length errors) then Str.join " " errors else empty_batch_message).

Definition skipped_warning (errors : list string) : string :=
  "Warning: Skipped " +:+ pretty (length errors) +:+ " invalid rows. Reasons: "
    +:+ Str.join " " errors.

(** [handleSubmit]: the next state and the call of [onAnalyze], if any.
    [isLoading] is a property of the component; [message] is the text
    the engine gives to a [TypeError], which the handler of line 175
    shows as it is. *)
Definition handleSubmit (message : TypeError → string) (isLoading : bool)
    (st : State) : State * option AnalysisInput :=
  if isLoading then (st, None)
  else
    match inputMode st with
    | url =>
        let nonEmptyCompetitors :=
          filter (λ u, Str.trim u ≠ "") (competitorUrls st) in
        if decide (Str.trim (userProductUrl st) ≠ "" ∧ 0 < length nonEmptyCompetitors)
        then (st, Some (UrlInput (userProductUrl st) nonEmptyCompetitors))
        else (st, None)
    | csv =>
        let st := setCsvError None st in
        match csvFile st with
        | None => (setCsvError (Some select_file_error) st, None)
        | Some _ =>
            if decide (FieldMapping.productName (fieldMapping st) = ""
                       ∨ FieldMapping.currentPrice (fieldMapping st) = "")
            then (setCsvError (Some mapping_error) st, None)
            else
              match normalize (fieldMapping st) (csvData st) with
              | normal acc =>
                  if decide (length (validProducts acc) = 0)
                  then (setCsvError (Some (analysis_failed (errors acc))) st, None)
                  else
                    let st :=
                      if decide (0 < length (errors acc))
                      then setCsvError (Some (skipped_warning (errors acc))) st
                      else setCsvError None st in
                    (st, Some (CsvInput (validProducts acc)))
              | throw error => (setCsvError (Some (message error)) st, None)
              end
        end
    end.

(** The text V8 gives to a [TypeError], for the examples. *)
Definition v8_message (error : TypeError) : string :=
  match error with
  | not_a_function callee => callee +:+ " is not a function"
  | cannot_read_properties property =>
      "Cannot read properties of undefined (reading '" +:+ property +:+ "')"
  end.

(** The form on its CSV tab after a file named [products.csv] holding
    [content] was chosen and the columns were mapped as [mapping]. *)
Definition uploaded (content : string) (mapping : FieldMapping.t) : State :=
  setFieldMapping mapping
    (handleFileChange
       (Some {| name := "products.csv"; type := "text/csv"; text := Some content |})
       (setInputMode csv initial_state)).

(** ** Vocabulary for the statements about rows *)

(** The row reads [key] from the prototype: it has no own property of
    that name and [Object.prototype] has a member of it.  A row of a
    parsed table reads the column [__proto__] so. *)
Definition inherits (row : gmap string string) (key : string) : Prop :=
  row !! key = None ∧ key ∈ Row.object_prototype.

Global Instance inherits_dec row key : Decision (inherits row key).
Proof. unfold inherits. apply _. Defined.

(** What is left of the price cell of a row (line 136), when the row
    does not inherit its price column. *)
Definition price_string (fm : FieldMapping.t) (row : gmap string string) : string :=
  Str.strip_non_price (default "" (row !! FieldMapping.currentPrice fm)).

(** The product pushed for a row whose name and price are accepted
    (lines 150-157). *)
Definition product_of (fm : FieldMapping.t) (row : gmap string string) : CsvProduct.t :=
  {| CsvProduct.productName := Row.get row (FieldMapping.productName fm);
     CsvProduct.currentPrice := parseFloat (price_string fm row);
     CsvProduct.userProductUrl :=
       or_empty (Row.get row (FieldMapping.userProductUrl fm));
     CsvProduct.competitorUrls :=
       filter truthy (Row.get row <$> FieldMapping.competitorUrls fm) |}.

(** The name cell of a row is absent, empty or white space only. *)
Definition blank_name (fm : FieldMapping.t) (row : gmap string string) : Prop :=
  Row.get row (FieldMapping.productName fm) = undefined
  ∨ ∃ s, row !! FieldMapping.productName fm = Some s ∧ Str.all_white_space s.

(** The name cell of a row holds something else than white space. *)
Definition named (fm : FieldMapping.t) (row : gmap string string) : Prop :=
  ∃ s, row !! FieldMapping.productName fm = Some s ∧ ¬ Str.all_white_space s.

Global Instance blank_name_dec fm row : Decision (blank_name fm row).
Proof.
  unfold blank_name, Row.get.
  destruct (row !! FieldMapping.productName fm) as [s|].
  - destruct (decide (Str.all_white_space s)) as [Hs|Hs].
    + left. right. by exists s.
    + right. by intros [?|(s' & [= <-] & Hs')].
  - destruct (decide (FieldMapping.productName fm ∈ Row.object_prototype)).
    + right. by intros [?|(s & [=] & _)].
    + left. by left.
Defined.

Global Instance named_dec fm row : Decision (named fm row).
Proof.
  unfold named. destruct (row !! FieldMapping.productName fm) as [s|].
  - destruct (decide (Str.all_white_space s)) as [Hs|Hs].
    + right. by intros (s' & [= <-] & Hs').
    + left. by exists s.
  - right. by intros (s & [=] & _).
Defined.

(** A value is a string other than the empty one. *)
Definition nonempty_string (v : Value) : Prop :=
  match v with
  | str s => s ≠ ""
  | _ => False
  end.

(** What the normaliser guarantees of a product, and the invariant the
    data model of the specification states for one. *)
Definition well_formed_product (p : CsvProduct.t) : Prop :=
  (∃ name, CsvProduct.productName p = str name ∧ ¬ Str.all_white_space name)
  ∧ Number.isNaN (CsvProduct.currentPrice p) = false
  ∧ Forall truthy (CsvProduct.competitorUrls p).

Definition data_model_invariant (p : CsvProduct.t) : Prop :=
  nonempty_string (CsvProduct.productName p)
  ∧ Number.isFinite (CsvProduct.currentPrice p) = true
  ∧ Number.is_nonnegative (CsvProduct.currentPrice p) = true
  ∧ Forall nonempty_string (CsvProduct.competitorUrls p).

(** The mapping of the columns [productName] and [currentPrice] to
    themselves, with the competitor columns [competitors]. *)
Definition self_mapping (competitors : list string) : FieldMapping.t :=
  {| FieldMapping.productName := "productName";
     FieldMapping.currentPrice := "currentPrice";
     FieldMapping.userProductUrl := "";
     FieldMapping.competitorUrls := competitors |}.

(** The first data line of the sample file of [downloadSampleCsv]. *)
Definition sample_line : string :=
  quoted "Pro Camera X1, with stand"
  +:+ ",499.99,https://yourstore.com/pro-camera,https://competitorA.com/camera-x1,https://competitorB.com/pro-cam-x1".

(** ** The reading of the specification

    Definitions that follow the words of the specification rather than
    the source, to be compared with the source's. *)

(** The quote-aware split of the specification: a state machine that is
    either inside or outside a quoted field, flips at every double quote
    and cuts at the commas met outside. *)
Fixpoint split_outside_quotes_from (inside : bool) (s : string) : list string :=
  match s with
  | "" => [""]
  | String c s' =>
      if Ascii.eqb c Char.comma && negb inside
      then "" :: split_outside_quotes_from inside s'
      else
        let inside' := if Ascii.eqb c Char.dquote then negb inside else inside in
        match split_outside_quotes_from inside' s' with
        | field :: fields => String c field :: fields
        | [] => [String c ""]
        end
  end.

Definition split_outside_quotes : string → list string :=
  split_outside_quotes_from false.

(** The competitor cells of a row taken in the order of the file's
    columns: the non-empty cells of the headers that are selected. *)
Definition competitor_urls_in_column_order
    (headers selected : list string) (row : gmap string string) : list Value :=
  filter truthy
    (Row.get row <$> filter (λ header, header ∈ selected) headers).

(** ** The rest of the form: competitor list and sample file *)

Definition setCompetitorUrls (urls : list string) (st : State) : State :=
  {| inputMode := inputMode st; userProductUrl := userProductUrl st;
     competitorUrls := urls; csvFile := csvFile st;
     csvError := csvError st; csvHeaders := csvHeaders st; csvData := csvData st;
     fieldMapping := fieldMapping st |}.

(** [Array.prototype.filter] with the element index passed to the
    callback. *)
Fixpoint filter_index_from {A} (keep : A → nat → bool) (index : nat) (l : list A) : list A :=
  match l with
  | [] => []
  | x :: l' =>
      if keep x index then x :: filter_index_from keep (S index) l'
      else filter_index_from keep (S index) l'
  end.

Definition filter_index {A} (keep : A → nat → bool) (l : list A) : list A :=
  filter_index_from keep 0 l.

(** [addCompetitor] and [removeCompetitor] (lines 41-42). *)
Definition addCompetitor (st : State) : State :=
  setCompetitorUrls (competitorUrls st ++ [""]) st.

Definition removeCompetitor (index : nat) (st : State) : State :=
  setCompetitorUrls
    (filter_index (λ _ i, negb (i =? index)) (competitorUrls st)) st.

(** [csvContent] of [downloadSampleCsv] (lines 182-185). *)
Definition csvContent : string :=
  "productName,currentPrice,userProductUrl,competitorUrl_1,competitorUrl_2" +:+ nl
  +:+ sample_line +:+ nl
  +:+ "Wireless Headphones Z,$149.00,https://yourstore.com/headphones-z,https://competitorA.com/headphones-z-pro,https://competitorC.com/audio/wireless-z" +:+ nl
  +:+ "Smart Fitness Watch V2,229.50,https://yourstore.com/smart-watch,," +:+ nl.

(** ** Further vocabulary for rows *)

(** A row that gives a product. *)
Definition accepted (fm : FieldMapping.t) (row : gmap string string) : Prop :=
  named fm row ∧ ¬ inherits row (FieldMapping.currentPrice fm)
  ∧ price_string fm row ≠ ""
  ∧ Number.isNaN (parseFloat (price_string fm row)) = false.

Global Instance accepted_dec fm row : Decision (accepted fm row).
Proof. unfold accepted. apply _. Defined.

(** The error pushed for the row at [index], if any (lines 138-148). *)
Definition row_error (fm : FieldMapping.t) (index : nat)
    (row : gmap string string) : option string :=
  if decide (named fm row ∧ ¬ inherits row (FieldMapping.currentPrice fm)) then
    if decide (price_string fm row = "") then Some (price_missing (index + 2))
    else if Number.isNaN (parseFloat (price_string fm row))
         then Some (price_invalid (index + 2)
                      (Row.get row (FieldMapping.currentPrice fm)))
         else None
  else None.

(** The [TypeError] the reducer throws at a row, if any: the name
    column is inherited (line 132), or the row has a name and its price
    column is inherited (line 136). *)
Definition row_throws (fm : FieldMapping.t) (row : gmap string string) : option TypeError :=
  if decide (inherits row (FieldMapping.productName fm))
  then Some (not_a_function "productName.trim")
  else if decide (named fm row ∧ inherits row (FieldMapping.currentPrice fm))
       then Some (not_a_function "(row[fieldMapping.currentPrice] || '').replace")
       else None.

(** A text with every line feed written as carriage return, line feed. *)
Fixpoint to_crlf (s : string) : string :=
  match s with
  | "" => ""
  | String c s' =>
      if Ascii.eqb c Char.LF then String Char.CR (String Char.LF (to_crlf s'))
      else String c (to_crlf s')
  end.

(** ** The batch response of the analysis service

    The text handling of [analyzeBatchProducts] between the reply of the
    model and [JSON.parse] (lines 134-142 of the service file). *)

Module Gemini.
Definition fence_open : string := "```json".
Definition fence_close : string := "```".

(** The tail of the regex, an optional line feed and the closing fence,
    matches at the start of [s]. *)
Definition closes (s : string) : bool :=
  match Str.drop_prefix (String Char.LF fence_close) s,
        Str.drop_prefix fence_close s with
  | None, None => false
  | _, _ => true
  end.

(** The lazy group of the regex followed by its tail: the shortest
    prefix of [s] after which the tail matches. *)
Fixpoint lazy_group (s : string) : option string :=
  if closes s then Some ""
  else match s with
       | String c s' => String c <$> lazy_group s'
       | "" => None
       end.

(** Group 1 of the leftmost match of the fence regex (an opening fence,
    an optional line feed taken greedily, the lazy group, the tail), with
    the backtracking of the optional line feed and of the start
    position written out. *)
Fixpoint match_fence (s : string) : option string :=
  let next :=
    match s with
    | String _ s' => match_fence s'
    | "" => None
    end in
  match Str.drop_prefix fence_open s with
  | Some rest =>
      let greedy :=
        match rest with
        | String c rest' => if Ascii.eqb c Char.LF then lazy_group rest' else None
        | "" => None
        end in
      match greedy with
      | Some group => Some group
      | None =>
          match lazy_group rest with
          | Some group => Some group
          | None => next
          end
      end
  | None => next
  end.

(** [jsonText] after lines 134-138. *)
Definition batch_json_text (responseText : string) : string :=
  let jsonText := Str.trim responseText in
  match match_fence jsonText with
  | Some group => if decide (group ≠ "") then group else jsonText
  | None => jsonText
  end.

Definition empty_response_error : string :=
  "Received an empty or invalid response from the AI for batch analysis.".

(** The message of the error rethrown by the handler of lines 157-161. *)
Definition batch_failure (message : string) : string :=
  "Failed to get batch analysis from PredictGenie. Reason: " +:+ message.

(** The text handed to [JSON.parse], or the message of the error thrown
    before it. *)
Definition batch_payload (responseText : string) : string + string :=
  let jsonText := batch_json_text responseText in
  if decide (jsonText = "") then inl (batch_failure empty_response_error)
  else inr jsonText.
End Gemini.

(** ** Auxiliary definitions of the proofs *)

(** [p] put in front of the first field of a split. *)
Definition cons_head (p : string) (l : list string) : list string :=
  match l with
  | x :: xs => (p +:+ x) :: xs
  | [] => [p]
  end.

(** The character of the code fences. *)
Definition backtick : ascii := "`"%char.

(** ** Strings: basic facts *)

Section string_facts.
Implicit Types (s t : string) (c : ascii).

Lemma all_white_space_nil : Str.all_white_space "".
Proof. constructor. Qed.

Lemma all_white_space_cons c s :
  Str.all_white_space (String c s)
  ↔ Char.is_white_space c = true ∧ Str.all_white_space s.
Proof. unfold Str.all_white_space; simpl. by rewrite Forall_cons. Qed.

Lemma trimStart_all_white_space s :
  Str.all_white_space s → Str.trimStart s = "".
Proof.
  induction s as [|c s IH]; [done|].
  rewrite all_white_space_cons. intros [Hc Hs]. simpl. rewrite Hc. auto.
Qed.

Lemma trimEnd_empty_iff s :
  Str.trimEnd s = "" ↔ Str.all_white_space s.
Proof.
  induction s as [|c s IH]; simpl.
  - split; [intros _; apply all_white_space_nil | done].
  - rewrite all_white_space_cons, <- IH.
    destruct (Str.trimEnd s) as [|d t]; [|split; [done|intros [_ ?]; done]].
    destruct (Char.is_white_space c); split; try done. by intros [? _].
Qed.

Lemma trimStart_head s c t :
  Str.trimStart s = String c t → Char.is_white_space c = false.
Proof.
  induction s as [|d s IH]; simpl; [done|].
  destruct (Char.is_white_space d) eqn:Hd; [done|]. by intros [= -> _].
Qed.

(** A string trims to the empty string exactly when it consists of
    white space only. *)
Lemma trim_empty_iff s : Str.trim s = "" ↔ Str.all_white_space s.
Proof.
  unfold Str.trim. split.
  - intros H%trimEnd_empty_iff.
    destruct (Str.trimStart s) as [|c t] eqn:Hs.
    + clear H. induction s as [|d s IH]; [apply all_white_space_nil|].
      simpl in Hs. rewrite all_white_space_cons.
      destruct (Char.is_white_space d); [auto|done].
    + apply trimStart_head in Hs. apply all_white_space_cons in H as [H _].
      congruence.
  - intros H. by rewrite (trimStart_all_white_space _ H).
Qed.

Lemma trim_nonempty s : Str.trim s ≠ "" → s ≠ "".
Proof. by intros H ->. Qed.

Lemma app_empty_l s : "" +:+ s = s.
Proof. done. Qed.

Lemma app_String c s t : String c s +:+ t = String c (s +:+ t).
Proof. done. Qed.

Lemma app_String_assoc s t u : (s +:+ t) +:+ u = s +:+ (t +:+ u).
Proof.
  induction s as [|c s IH]; [done|]. by rewrite !app_String, IH.
Qed.

Lemma app_empty_r s : s +:+ "" = s.
Proof. induction s as [|c s IH]; [done|]. by rewrite app_String, IH. Qed.

Lemma occurs_in_refl s : Str.occurs_in s s.
Proof. exists "", "". by rewrite app_empty_l, app_empty_r. Qed.

Lemma occurs_in_app_l s t u : Str.occurs_in s t → Str.occurs_in s (t +:+ u).
Proof.
  intros (pre & post & ->). exists pre, (post +:+ u).
  by rewrite !app_String_assoc.
Qed.

Lemma occurs_in_app_r s t u : Str.occurs_in s t → Str.occurs_in s (u +:+ t).
Proof.
  intros (pre & post & ->). exists (u +:+ pre), post.
  by rewrite !app_String_assoc.
Qed.

(** Every element of a joined list occurs in the result. *)
Lemma join_occurs sep (l : list string) e :
  e ∈ l → Str.occurs_in e (Str.join sep l).
Proof.
  induction l as [|x l IH]; [by intros ?%elem_of_nil|].
  intros [->|Hin]%elem_of_cons.
  - destruct l; simpl; [apply occurs_in_refl|].
    apply occurs_in_app_l, occurs_in_refl.
  - destruct l as [|y l]; [by apply elem_of_nil in Hin|].
    change (Str.join sep (x :: y :: l)) with (x +:+ sep +:+ Str.join sep (y :: l)).
    by apply occurs_in_app_r, occurs_in_app_r, IH.
Qed.

Lemma strip_non_price_chars s :
  list_ascii_of_string (Str.strip_non_price s)
  = List.filter Char.is_price_char (list_ascii_of_string s).
Proof.
  induction s as [|c s IH]; simpl; [done|].
  destruct (Char.is_price_char c); simpl; by rewrite IH.
Qed.

Lemma drop_prefix_Some p s t : Str.drop_prefix p s = Some t ↔ s = p +:+ t.
Proof.
  revert s. induction p as [|a p IH]; intros s; simpl.
  - rewrite app_empty_l. split; [by intros [= ->]|by intros ->].
  - destruct s as [|b s]; [by rewrite app_String|].
    rewrite app_String. destruct (Ascii.eqb_spec a b) as [->|Hne].
    + rewrite IH. split; [by intros ->|by intros [= ->]].
    + split; [done|]. intros [= -> _]. done.
Qed.

(** [includes] decides occurrence as a substring. *)
Lemma includes_spec needle s :
  Str.includes needle s = true ↔ Str.occurs_in needle s.
Proof.
  split.
  - induction s as [|c s IH]; simpl.
    + destruct (Str.drop_prefix needle "") as [t|] eqn:Hd; [|done].
      apply drop_prefix_Some in Hd. intros _. exists "", t.
      by rewrite app_empty_l.
    + destruct (Str.drop_prefix needle (String c s)) as [t|] eqn:Hd.
      * apply drop_prefix_Some in Hd. intros _. exists "", t.
        by rewrite app_empty_l.
      * intros (pre & post & ->)%IH. exists (String c pre), post.
        by rewrite app_String.
  - intros (pre & post & ->). induction pre as [|c pre IH].
    + rewrite app_empty_l.
      assert (Str.drop_prefix needle (needle +:+ post) = Some post) as Hd
        by by apply drop_prefix_Some.
      destruct (needle +:+ post); simpl; by rewrite Hd.
    + rewrite app_String. simpl.
      by destruct (Str.drop_prefix needle (String c (pre +:+ needle +:+ post))).
Qed.

Lemma not_all_white_space_nonempty s : ¬ Str.all_white_space s → s ≠ "".
Proof. intros H ->. apply H, all_white_space_nil. Qed.
End string_facts.

(** ** The CSV parser: properties *)

Section parser.
Implicit Types (s row text : string) (c : ascii).

Lemma reduce_from_snoc {A B} (f : B → A → nat → B) k (l : list A) x acc :
  reduce_from f k (l ++ [x]) acc = f (reduce_from f k l acc) x (k + length l).
Proof.
  revert k acc. induction l as [|y l IH]; intros k acc; simpl.
  - by rewrite Nat.add_0_r.
  - rewrite IH. f_equal. lia.
Qed.

Lemma split_where_nonempty sep s : Str.split_where sep s ≠ [].
Proof.
  destruct s as [|c s]; simpl; [done|].
  destruct (sep c s); [done|]. by destruct (Str.split_where sep s).
Qed.

(** The lines kept by the parser are as many as the lines of the text
    that hold something else than white space. *)
Lemma csv_lines_length text :
  length (csv_lines text)
  = length (filter (λ l, ¬ Str.all_white_space l)
              (Str.split Char.LF (Str.replace_crlf text))).
Proof.
  unfold csv_lines.
  induction (Str.split Char.LF (Str.replace_crlf text)) as [|l ls IH]; [done|].
  rewrite fmap_cons.
  destruct (decide (Str.all_white_space l)) as [Hw|Hw].
  - rewrite !filter_cons_False; [done|tauto|].
    apply trim_empty_iff in Hw. congruence.
  - rewrite !filter_cons_True; [by rewrite !length_cons, IH|done|].
    by rewrite trim_empty_iff.
Qed.

Lemma lookup_set_eq (obj : gmap string string) key v :
  key ≠ "__proto__" → Row.set obj key v !! key = Some v.
Proof.
  intros Hkey. unfold Row.set. rewrite decide_False by tauto.
  apply lookup_insert_eq.
Qed.

Lemma lookup_set_ne (obj : gmap string string) key key' v :
  key ≠ key' → Row.set obj key v !! key' = obj !! key'.
Proof.
  intros Hne. unfold Row.set. destruct (decide _); [done|].
  by apply lookup_insert_ne.
Qed.

Lemma set_proto (obj : gmap string string) v :
  obj !! "__proto__" = None → Row.set obj "__proto__" v = obj.
Proof. intros Hobj. unfold Row.set. by rewrite decide_True. Qed.

(** The row object has no own property [__proto__]. *)
Lemma row_object_proto hs row : row_object hs row !! "__proto__" = None.
Proof.
  unfold row_object, reduce. generalize (row_values row) as values.
  intros values. induction hs as [|h hs IH] using rev_ind; [done|].
  rewrite reduce_from_snoc. unfold assign_cell at 1.
  destruct (decide (h = "__proto__")) as [->|Hh].
  - by rewrite set_proto.
  - by rewrite lookup_set_ne.
Qed.

(** Every header but [__proto__] is a key of the row object. *)
Lemma row_object_is_Some hs row header :
  header ∈ hs → header ≠ "__proto__" → is_Some (row_object hs row !! header).
Proof.
  unfold row_object, reduce. generalize (row_values row) as values.
  intros values Hin Hproto. induction hs as [|h hs IH] using rev_ind.
  - by apply elem_of_nil in Hin.
  - rewrite reduce_from_snoc. unfold assign_cell at 1.
    destruct (decide (h = header)) as [->|Hne].
    + rewrite lookup_set_eq by done. eauto.
    + rewrite lookup_set_ne by done. apply IH.
      apply elem_of_app in Hin as [Hin|Hin%list_elem_of_singleton]; [done|].
      by subst h.
Qed.

(** Only headers are keys of the row object. *)
Lemma row_object_is_Some_inv hs row key :
  is_Some (row_object hs row !! key) → key ∈ hs ∧ key ≠ "__proto__".
Proof.
  intros Hsome. split; [|intros ->; rewrite row_object_proto in Hsome;
                          by apply is_Some_None in Hsome].
  revert Hsome. unfold row_object, reduce. generalize (row_values row) as values.
  intros values. induction hs as [|h hs IH] using rev_ind.
  - simpl. rewrite lookup_empty. by intros ?%is_Some_None.
  - rewrite reduce_from_snoc. unfold assign_cell at 1.
    destruct (decide (h = key)) as [->|Hne].
    + intros _. apply elem_of_app. right. by apply list_elem_of_singleton.
    + rewrite lookup_set_ne by done. intros ?%IH. apply elem_of_app. by left.
Qed.

(** The cell under a header other than [__proto__] is the value at the
    position of the header's last occurrence, or the empty string when
    the row has no value there. *)
Lemma row_object_lookup hs row header i :
  header ≠ "__proto__" →
  hs !! i = Some header →
  (∀ j, i < j → hs !! j ≠ Some header) →
  row_object hs row !! header = Some (default "" (row_values row !! i)).
Proof.
  intros Hproto.
  unfold row_object, reduce. generalize (row_values row) as values.
  intros values. revert i. induction hs as [|h hs IH] using rev_ind; intros i.
  - by rewrite lookup_nil.
  - intros Hi Hlast. rewrite reduce_from_snoc. unfold assign_cell at 1.
    destruct (decide (i = length hs)) as [->|Hne].
    + rewrite list_lookup_middle in Hi by done. injection Hi as ->.
      by rewrite lookup_set_eq.
    + assert (i < length hs) as Hlt.
      { apply lookup_lt_Some in Hi. rewrite length_app in Hi. simpl in Hi. lia. }
      rewrite lookup_app_l in Hi by done.
      assert (h ≠ header) as Hh.
      { intros ->. apply (Hlast (length hs) Hlt).
        by rewrite list_lookup_middle. }
      rewrite lookup_set_ne by done. apply IH; [done|].
      intros j Hj Hj'. apply (Hlast j Hj).
      rewrite lookup_app_l; [done|]. by apply lookup_lt_Some in Hj'.
Qed.

(** A row of a parsed table reads a header as a string, except the
    header [__proto__], which it reads from the prototype. *)
Lemma row_object_get hs row header :
  header ∈ hs →
  if decide (header = "__proto__")
  then Row.get (row_object hs row) header = inherited "__proto__"
  else ∃ s, row_object hs row !! header = Some s
            ∧ Row.get (row_object hs row) header = str s.
Proof.
  intros Hin. destruct (decide (header = "__proto__")) as [->|Hne].
  - unfold Row.get. by rewrite row_object_proto.
  - destruct (row_object_is_Some hs row header Hin Hne) as [s Hs].
    exists s. split; [done|]. unfold Row.get. by rewrite Hs.
Qed.

(** With an even number of double quotes left, the lookahead of the
    separator regex and the inside/outside state agree. *)
Lemma split_regex_state_machine s inside :
  Nat.odd (Str.count Char.dquote s) = inside →
  Str.split_where regex_comma s = split_outside_quotes_from inside s.
Proof.
  revert inside. induction s as [|c s IH]; intros inside Hpar; [done|].
  simpl in *. unfold regex_comma at 1.
  destruct (Ascii.eqb_spec c Char.comma) as [->|Hcomma].
  - simpl in Hpar. rewrite <- Nat.negb_odd, Hpar. simpl.
    destruct inside; simpl; by rewrite (IH _ Hpar).
  - simpl. destruct (Ascii.eqb_spec c Char.dquote) as [->|Hq].
    + rewrite (IH (negb inside)); [done|].
      rewrite <- Hpar. change (1 + ?n) with (S n).
      by rewrite Nat.odd_succ, <- Nat.negb_odd, negb_involutive.
    + by rewrite (IH inside).
Qed.

(** Fields are cut at separators only: joining them with commas gives
    the line back. *)
Lemma split_regex_join row :
  Str.join "," (Str.split_where regex_comma row) = row.
Proof.
  induction row as [|c row IH]; [done|]. simpl.
  pose proof (split_where_nonempty regex_comma row) as Hne.
  destruct (regex_comma c row) eqn:Hsep.
  - destruct (Str.split_where regex_comma row) as [|f fs]; [done|].
    change (Str.join "," ("" :: f :: fs)) with ("" +:+ "," +:+ Str.join "," (f :: fs)).
    rewrite IH. unfold regex_comma in Hsep.
    apply andb_true_iff in Hsep as [->%Ascii.eqb_eq _]. done.
  - destruct (Str.split_where regex_comma row) as [|f fs]; [done|].
    destruct fs as [|g fs]; simpl in *; [by rewrite IH|].
    rewrite app_String. by rewrite IH.
Qed.
End parser.

Section parser_claims.
Implicit Types (s line text : string).

Lemma strip_trailing_quote_snoc s :
  Str.strip_trailing_quote (s +:+ String Char.dquote "") = s.
Proof.
  induction s as [|c s IH]; [done|].
  rewrite app_String. simpl. rewrite IH.
  destruct s; by rewrite ?app_empty_l, ?app_String.
Qed.

(** A value written between double quotes loses exactly that pair. *)
Lemma strip_quotes_quoted s : Str.strip_quotes (quoted s) = s.
Proof. unfold Str.strip_quotes, quoted. simpl. apply strip_trailing_quote_snoc. Qed.

(** C2 (as amended): on every data line that holds an even number of
    double quotes the parser cuts exactly at the commas that lie
    outside a quoted field, as the inside/outside state machine of the
    specification does; the fields are cut at commas only, each is
    trimmed and then loses one leading and one trailing double quote if
    present; the first line of the sample file yields the single first
    field [Pro Camera X1, with stand]. *)
Theorem C2_split_outside_balanced_quotes (row : string) :
  Nat.even (Str.count Char.dquote row) = true →
  Str.split_where regex_comma row = split_outside_quotes row
  ∧ row_values row
    = ((λ val, Str.strip_quotes (Str.trim val)) <$> split_outside_quotes row)
  ∧ Str.join "," (Str.split_where regex_comma row) = row
  ∧ (∀ s, Str.strip_quotes (quoted s) = s)
  ∧ row_values sample_line
    = ["Pro Camera X1, with stand"; "499.99"; "https://yourstore.com/pro-camera";
       "https://competitorA.com/camera-x1"; "https://competitorB.com/pro-cam-x1"].
Proof.
  intros Heven.
  assert (Str.split_where regex_comma row = split_outside_quotes row) as Hsplit.
  { apply split_regex_state_machine. by rewrite <- Nat.negb_even, Heven. }
  split; [|split; [|split; [|split]]].
  - done.
  - unfold row_values. by rewrite Hsplit.
  - apply split_regex_join.
  - apply strip_quotes_quoted.
  - by vm_compute.
Qed.

Lemma C2_split_outside_balanced_quotes_witness :
  Str.split_where regex_comma sample_line = split_outside_quotes sample_line.
Proof.
  apply (C2_split_outside_balanced_quotes sample_line). by vm_compute.
Defined.

(** C2 fails as stated: on a line with an odd number of double quotes
    the parser cuts at the comma between the two quotes of the first
    field and leaves the comma after that field alone. *)
Lemma C2_unbalanced_quotes_counterexample :
  let row := quoted "a,b" +:+ ",c" +:+ String Char.dquote "d" in
  Str.split_where regex_comma row
    = [String Char.dquote "a"; "b" +:+ String Char.dquote ",c" +:+ String Char.dquote "d"]
  ∧ split_outside_quotes row = [quoted "a,b"; "c" +:+ String Char.dquote "d"]
  ∧ Str.split_where regex_comma row ≠ split_outside_quotes row.
Proof. by vm_compute. Qed.

(** C5: a text with fewer than two lines that hold something else than
    white space, once CRLF is turned into LF, is rejected with the
    format error; any other text parses into a table with at least one
    header and one row per remaining line after the first; a header
    line followed by blank lines only is rejected. *)
Theorem C5_parseCsv_format_error text :
  let non_blank :=
    filter (λ l, ¬ Str.all_white_space l)
      (Str.split Char.LF (Str.replace_crlf text)) in
  (length non_blank < 2 → parseCsv text = Rejected format_error)
  ∧ (2 ≤ length non_blank →
     ∃ table, parseCsv text = Resolved table
              ∧ 0 < length (headers table)
              ∧ S (length (data table)) = length non_blank)
  ∧ parseCsv ("productName,currentPrice" +:+ nl +:+ "   " +:+ String Char.CR nl)
    = Rejected format_error.
Proof.
  simpl. rewrite <- csv_lines_length. unfold parseCsv.
  split; [|split].
  - intros Hlt. by rewrite (proj2 (Nat.ltb_lt _ _) Hlt).
  - intros Hge. rewrite (proj2 (Nat.ltb_ge _ _) Hge).
    eexists; split; [done|]. simpl. split.
    + rewrite length_fmap.
      pose proof (split_where_nonempty (λ d _, Ascii.eqb d Char.comma)
                    (hd "" (csv_lines text))) as Hne.
      unfold Str.split. destruct (Str.split_where _ _); [done|simpl; lia].
    + rewrite length_fmap. destruct (csv_lines text); simpl in *; lia.
  - by vm_compute.
Qed.

(** C8 fails on the code: the assignment of line 87 stores nothing for
    a header named [__proto__], so that the row of the file below has an
    entry for [currentPrice] only, and reads [__proto__] from the
    prototype instead of holding [Widget] under it. *)
Theorem C8_proto_header_has_no_entry :
  let text := "__proto__,currentPrice" +:+ nl +:+ "Widget,5" in
  let row : gmap string string := {[ "currentPrice" := "5" ]} in
  parseCsv text
  = Resolved {| headers := ["__proto__"; "currentPrice"]; data := [row] |}
  ∧ row !! "__proto__" = None
  ∧ Row.get row "__proto__" = inherited "__proto__"
  ∧ Row.get row "currentPrice" = str "5".
Proof. by vm_compute. Qed.

(** X21: every row of a parsed table has an entry for every header
    other than [__proto__]; the row at position [k] is built from the [k]-th
    data line, and a header whose position (of its last occurrence)
    lies past the values of that line is mapped to the empty string. *)
Theorem parseCsv_rows_cover_headers text table :
  parseCsv text = Resolved table →
  Forall (λ row : gmap string string,
            ∀ header, header ∈ headers table → header ≠ "__proto__" →
                      is_Some (row !! header))
         (data table)
  ∧ ∀ k line i header,
      tl (csv_lines text) !! k = Some line →
      headers table !! i = Some header →
      header ≠ "__proto__" →
      (∀ j, i < j → headers table !! j ≠ Some header) →
      ∃ row : gmap string string, data table !! k = Some row
             ∧ row !! header = Some (default "" (row_values line !! i))
             ∧ (length (row_values line) ≤ i → row !! header = Some "").
Proof.
  unfold parseCsv. destruct (length (csv_lines text) <? 2); [done|].
  intros [= <-]. simpl. split.
  - apply Forall_forall. intros row [line [-> _]]%list_elem_of_fmap header Hin Hne.
    by apply row_object_is_Some.
  - intros k line i header Hline Hi Hne Hlast.
    exists (row_object (Str.trim <$> Str.split Char.comma (hd "" (csv_lines text))) line).
    split; [by rewrite list_lookup_fmap, Hline|].
    rewrite (row_object_lookup _ _ _ i Hne Hi Hlast). split; [done|].
    intros Hlen. by rewrite (lookup_ge_None_2 _ _ Hlen).
Qed.

Lemma parseCsv_rows_cover_headers_witness :
  Forall (λ row : gmap string string,
            ∀ header, header ∈ ["name"; "price"; "url"] → header ≠ "__proto__" →
                      is_Some (row !! header))
         [row_object ["name"; "price"; "url"] "Widget,5"].
Proof.
  apply (parseCsv_rows_cover_headers ("name,price,url" +:+ nl +:+ "Widget,5")
           {| headers := ["name"; "price"; "url"];
              data := [row_object ["name"; "price"; "url"] "Widget,5"] |}).
  by vm_compute.
Defined.
End parser_claims.

(** ** The row normaliser: properties *)

Section normalizer.
Context (fm : FieldMapping.t).
Implicit Types (acc : Acc) (row : gmap string string) (index : nat)
  (rows : list (gmap string string)).

Abbreviation name_cell row := (Row.get row (FieldMapping.productName fm)).
Abbreviation price_cell row := (Row.get row (FieldMapping.currentPrice fm)).

Lemma get_own row key s : row !! key = Some s → Row.get row key = str s.
Proof. intros Hs. unfold Row.get. by rewrite Hs. Qed.

Lemma get_inherits row key : inherits row key → Row.get row key = inherited key.
Proof.
  intros [Hnone Hin]. unfold Row.get. rewrite Hnone. by rewrite decide_True.
Qed.

Lemma get_inherited row key member :
  Row.get row key = inherited member → inherits row key.
Proof.
  unfold Row.get, inherits. destruct (row !! key); [done|].
  by destruct (decide _).
Qed.

Lemma get_not_inherits row key :
  ¬ inherits row key →
  Row.get row key = from_option str undefined (row !! key).
Proof.
  unfold inherits, Row.get. intros Hno. destruct (row !! key); [done|].
  rewrite decide_False; [done|]. tauto.
Qed.

(** [row[key] || ''] for a key the row does not inherit. *)
Lemma or_empty_get row key :
  ¬ inherits row key →
  or_empty (Row.get row key) = str (default "" (row !! key)).
Proof.
  intros Hno. rewrite get_not_inherits by done. unfold or_empty.
  destruct (row !! key) as [s|]; simpl; [|done].
  destruct (decide (s ≠ "")) as [|Hs]; [done|].
  f_equal. by destruct (decide (s = "")).
Qed.

(** A name cell is blank, or holds a name, or is inherited, and only
    one of the three. *)
Lemma name_cases row :
  blank_name fm row ∨ named fm row ∨ inherits row (FieldMapping.productName fm).
Proof.
  unfold blank_name, named, inherits, Row.get.
  destruct (row !! FieldMapping.productName fm) as [s|].
  - destruct (decide (Str.all_white_space s)); [left|right; left]; eauto.
  - destruct (decide (_ ∈ _)); [right; right|left; left]; done.
Qed.

Lemma named_not_blank row : named fm row → ¬ blank_name fm row.
Proof.
  intros (s & Hs & Hws) [Hu|(s' & Hs' & Hws')].
  - rewrite (get_own _ _ _ Hs) in Hu. done.
  - congruence.
Qed.

Lemma named_not_inherits row :
  named fm row → ¬ inherits row (FieldMapping.productName fm).
Proof. intros (s & Hs & _) [Hnone _]. congruence. Qed.

Lemma blank_not_inherits row :
  blank_name fm row → ¬ inherits row (FieldMapping.productName fm).
Proof.
  intros [Hu|(s & Hs & _)] Hin.
  - by rewrite (get_inherits _ _ Hin) in Hu.
  - destruct Hin. congruence.
Qed.

Lemma normalize_row_skipped acc row index :
  blank_name fm row → normalize_row fm acc row index = normal acc.
Proof.
  unfold normalize_row. intros [Hu|(s & Hs & Hws)].
  - by rewrite Hu.
  - rewrite (get_own _ _ _ Hs). destruct (decide (truthy (str s))); [|done].
    simpl. apply trim_empty_iff in Hws. by rewrite Hws.
Qed.

Lemma normalize_row_name_inherited acc row index :
  inherits row (FieldMapping.productName fm) →
  normalize_row fm acc row index = throw (not_a_function "productName.trim").
Proof. intros Hin. unfold normalize_row. by rewrite (get_inherits _ _ Hin). Qed.

(** The reducer past the name check, for a row with a name. *)
Lemma normalize_row_named acc row index :
  named fm row →
  normalize_row fm acc row index
  = (priceString ←
       call_replace_non_price "(row[fieldMapping.currentPrice] || '').replace"
         (or_empty (price_cell row));
     if decide (priceString = "") then
       normal {| validProducts := validProducts acc;
                 errors := errors acc ++ [price_missing (index + 2)] |}
     else if Number.isNaN (parseFloat priceString) then
       normal {| validProducts := validProducts acc;
                 errors := errors acc ++ [price_invalid (index + 2) (price_cell row)] |}
     else
       normal
         {| validProducts := validProducts acc ++
              [ {| CsvProduct.productName := name_cell row;
                   CsvProduct.currentPrice := parseFloat priceString;
                   CsvProduct.userProductUrl :=
                     or_empty (Row.get row (FieldMapping.userProductUrl fm));
                   CsvProduct.competitorUrls :=
                     filter truthy
                       (Row.get row <$> FieldMapping.competitorUrls fm) |} ];
            errors := errors acc |}).
Proof.
  intros (s & Hs & Hws). unfold normalize_row. rewrite (get_own _ _ _ Hs).
  rewrite decide_True by (simpl; by apply not_all_white_space_nonempty).
  simpl. rewrite bool_decide_eq_false_2; [done|]. by rewrite trim_empty_iff.
Qed.

Lemma normalize_row_price_inherited acc row index :
  named fm row → inherits row (FieldMapping.currentPrice fm) →
  normalize_row fm acc row index
  = throw (not_a_function "(row[fieldMapping.currentPrice] || '').replace").
Proof.
  intros Hname Hin. rewrite normalize_row_named by done.
  by rewrite (get_inherits _ _ Hin).
Qed.

Lemma normalize_row_price_missing acc row index :
  named fm row → ¬ inherits row (FieldMapping.currentPrice fm) →
  price_string fm row = "" →
  normalize_row fm acc row index
  = normal {| validProducts := validProducts acc;
              errors := errors acc ++ [price_missing (index + 2)] |}.
Proof.
  intros Hname Hno Hprice. rewrite normalize_row_named by done.
  rewrite (or_empty_get row (FieldMapping.currentPrice fm)) by done. simpl. fold (price_string fm row).
  by rewrite decide_True.
Qed.

Lemma normalize_row_price_invalid acc row index :
  named fm row → ¬ inherits row (FieldMapping.currentPrice fm) →
  price_string fm row ≠ "" →
  Number.isNaN (parseFloat (price_string fm row)) = true →
  normalize_row fm acc row index
  = normal {| validProducts := validProducts acc;
              errors := errors acc ++ [price_invalid (index + 2) (price_cell row)] |}.
Proof.
  intros Hname Hno Hprice Hnan. rewrite normalize_row_named by done.
  rewrite (or_empty_get row (FieldMapping.currentPrice fm)) by done. simpl. fold (price_string fm row).
  by rewrite decide_False, Hnan.
Qed.

Lemma normalize_row_valid acc row index :
  named fm row → ¬ inherits row (FieldMapping.currentPrice fm) →
  price_string fm row ≠ "" →
  Number.isNaN (parseFloat (price_string fm row)) = false →
  normalize_row fm acc row index
  = normal {| validProducts := validProducts acc ++ [product_of fm row];
              errors := errors acc |}.
Proof.
  intros Hname Hno Hprice Hnan. rewrite normalize_row_named by done.
  rewrite (or_empty_get row (FieldMapping.currentPrice fm)) by done. simpl. fold (price_string fm row).
  by rewrite decide_False, Hnan.
Qed.

Lemma row_throws_None row :
  row_throws fm row = None
  ↔ ¬ inherits row (FieldMapping.productName fm)
    ∧ (named fm row → ¬ inherits row (FieldMapping.currentPrice fm)).
Proof.
  unfold row_throws. destruct (decide (inherits row _)) as [Hin|Hin].
  { split; [done|]. by intros [? _]. }
  destruct (decide (_ ∧ _)) as [[Hn Hp]|Hnp].
  - split; [done|]. intros [_ Hno]. by destruct (Hno Hn).
  - split; [|done]. intros _. split; [done|]. tauto.
Qed.

Lemma row_error_blank index row : blank_name fm row → row_error fm index row = None.
Proof.
  intros Hb. unfold row_error. rewrite decide_False; [done|].
  intros [Hn _]. by apply (named_not_blank row).
Qed.

Lemma row_error_accepted index row : accepted fm row → row_error fm index row = None.
Proof.
  intros (Hname & Hno & Hprice & Hnan).
  unfold row_error. by rewrite decide_True, decide_False, Hnan.
Qed.

(** One step of the reducer, by cases on the row alone. *)
Lemma normalize_row_step acc row index :
  normalize_row fm acc row index
  = match row_throws fm row with
    | Some error => throw error
    | None =>
        normal
          {| validProducts :=
               validProducts acc
               ++ (if decide (accepted fm row) then [product_of fm row] else []);
             errors := errors acc ++ option_list (row_error fm index row) |}
    end.
Proof.
  unfold row_throws.
  destruct (name_cases row) as [Hb|[Hn|Hin]].
  - rewrite normalize_row_skipped, row_error_blank by done.
    rewrite decide_False by (by apply blank_not_inherits).
    rewrite decide_False by (intros [Hn _]; by apply (named_not_blank row)).
    rewrite decide_False by (intros [Hn _]; by apply (named_not_blank row)).
    destruct acc. simpl. by rewrite !app_nil_r.
  - rewrite (decide_False (P := inherits row _)) by (by apply named_not_inherits).
    destruct (decide (inherits row (FieldMapping.currentPrice fm))) as [Hp|Hp].
    { rewrite decide_True by done. by apply normalize_row_price_inherited. }
    rewrite decide_False by tauto.
    destruct (decide (price_string fm row = "")) as [He|He].
    { rewrite normalize_row_price_missing by done.
      rewrite decide_False by (by intros (_ & _ & ? & _)).
      unfold row_error. rewrite decide_True, decide_True by done.
      simpl. by rewrite app_nil_r. }
    destruct (Number.isNaN (parseFloat (price_string fm row))) eqn:Hnan.
    + rewrite normalize_row_price_invalid by done.
      rewrite decide_False by (intros (_ & _ & _ & ?); congruence).
      unfold row_error. rewrite decide_True, decide_False, Hnan by done.
      simpl. by rewrite app_nil_r.
    + rewrite normalize_row_valid by done.
      rewrite decide_True by done. rewrite row_error_accepted by done.
      simpl. by rewrite app_nil_r.
  - rewrite decide_True by done. by apply normalize_row_name_inherited.
Qed.

(** The reducer over rows none of which throws. *)
Lemma reduce_from_normalize rows index acc :
  Forall (λ row, row_throws fm row = None) rows →
  reduce_from_throwing (normalize_row fm) index rows acc
  = normal
      {| validProducts :=
           validProducts acc ++ (product_of fm <$> filter (accepted fm) rows);
         errors :=
           errors acc ++ omap id (imap (λ i, row_error fm (index + i)) rows) |}.
Proof.
  intros Hrows. revert index acc.
  induction Hrows as [|row rows Hrow _ IH]; intros index acc.
  { destruct acc. simpl. by rewrite !app_nil_r. }
  simpl. rewrite normalize_row_step, Hrow. simpl. rewrite IH. simpl.
  f_equal. f_equal.
  - rewrite <- app_assoc. f_equal. rewrite filter_cons.
    by destruct (decide (accepted fm row)).
  - rewrite <- app_assoc. f_equal. rewrite Nat.add_0_r.
    assert (imap ((λ i, row_error fm (index + i)) ∘ S) rows
            = imap (λ i, row_error fm (S index + i)) rows) as ->.
    { apply imap_ext. intros i x _. simpl. f_equal. lia. }
    by destruct (row_error fm index row).
Qed.

(** The reducer throws the error of the first row that throws. *)
Lemma reduce_from_normalize_throw rows row rows' error index acc :
  Forall (λ row, row_throws fm row = None) rows →
  row_throws fm row = Some error →
  reduce_from_throwing (normalize_row fm) index (rows ++ row :: rows') acc
  = throw error.
Proof.
  intros Hrows Hrow. revert index acc.
  induction Hrows as [|r rows Hr _ IH]; intros index acc; simpl.
  - by rewrite normalize_row_step, Hrow.
  - rewrite normalize_row_step, Hr. simpl. apply IH.
Qed.

(** The rows split at the first one that throws, if any. *)
Lemma first_throw rows :
  Forall (λ row, row_throws fm row = None) rows
  ∨ ∃ before row after error,
      rows = before ++ row :: after
      ∧ Forall (λ row, row_throws fm row = None) before
      ∧ row_throws fm row = Some error.
Proof.
  induction rows as [|row rows IH]; [by left|].
  destruct (row_throws fm row) as [error|] eqn:Hrow.
  { right. exists [], row, rows, error. by split. }
  destruct IH as [Hall|(before & r & after & error & -> & Hbefore & Hr)].
  - left. by constructor.
  - right. exists (row :: before), r, after, error. split; [done|].
    split; [by constructor|done].
Qed.

Lemma normalize_normal rows acc :
  normalize fm rows = normal acc →
  Forall (λ row, row_throws fm row = None) rows
  ∧ validProducts acc = product_of fm <$> filter (accepted fm) rows
  ∧ errors acc = omap id (imap (row_error fm) rows).
Proof.
  unfold normalize, reduce_throwing.
  destruct (first_throw rows)
    as [Hall|(before & r & after & error & -> & Hbefore & Hr)].
  - rewrite reduce_from_normalize by done. intros [= <-]. by split.
  - by rewrite (reduce_from_normalize_throw _ _ _ error).
Qed.

(** A property of products that holds of the product of every accepted
    row holds of all the products kept in the end. *)
Lemma normalize_products (P : CsvProduct.t → Prop) rows acc :
  (∀ row, row ∈ rows → accepted fm row → P (product_of fm row)) →
  normalize fm rows = normal acc →
  Forall P (validProducts acc).
Proof.
  intros HP (_ & -> & _)%normalize_normal.
  apply Forall_fmap, Forall_forall. intros row [Hacc Hin]%list_elem_of_filter.
  by apply HP.
Qed.

(** For selected columns that the row does not inherit, the competitor
    URLs are the non-empty cells, in the order of the selection. *)
Lemma competitor_urls_selection_order row :
  Forall (λ header, ¬ inherits row header) (FieldMapping.competitorUrls fm) →
  CsvProduct.competitorUrls (product_of fm row)
  = str <$> filter (λ u, u ≠ "")
      ((λ header, default "" (row !! header)) <$> FieldMapping.competitorUrls fm).
Proof.
  unfold product_of. cbn [CsvProduct.competitorUrls].
  induction 1 as [|h hs Hh _ IH]; [done|].
  rewrite !fmap_cons, !filter_cons, (get_not_inherits _ _ Hh), IH.
  destruct (row !! h) as [s|]; simpl.
  - destruct (decide (s ≠ "")); by rewrite ?fmap_cons.
  - done.
Qed.

Lemma competitor_urls_truthy row :
  Forall truthy (CsvProduct.competitorUrls (product_of fm row)).
Proof.
  apply Forall_forall. by intros u [Hu _]%list_elem_of_filter.
Qed.
End normalizer.

(** ** The submit handler: properties *)

Section submit.
Implicit Types (st : State) (fm : FieldMapping.t) (row : gmap string string)
  (acc : Acc) (message : TypeError → string).

Lemma product_of_well_formed fm row :
  accepted fm row → well_formed_product (product_of fm row).
Proof.
  intros ((name & Hname & Hws) & _ & _ & Hnan). split; [|split].
  - exists name. split; [|done]. simpl. by apply get_own.
  - done.
  - apply competitor_urls_truthy.
Qed.

(** The CSV branch once a file is chosen and both required columns
    are mapped. *)
Lemma handleSubmit_csv_ready message st file :
  inputMode st = csv → csvFile st = Some file →
  FieldMapping.productName (fieldMapping st) ≠ "" →
  FieldMapping.currentPrice (fieldMapping st) ≠ "" →
  handleSubmit message false st
  = match normalize (fieldMapping st) (csvData st) with
    | normal acc =>
        if decide (length (validProducts acc) = 0)
        then (setCsvError (Some (analysis_failed (errors acc))) st, None)
        else (setCsvError
                (if decide (0 < length (errors acc))
                 then Some (skipped_warning (errors acc)) else None) st,
              Some (CsvInput (validProducts acc)))
    | throw error => (setCsvError (Some (message error)) st, None)
    end.
Proof.
  intros Hmode Hfile Hname Hprice. unfold handleSubmit.
  rewrite Hmode. simpl. rewrite Hfile.
  rewrite decide_False by tauto.
  destruct (normalize _ _) as [acc|error]; [|done].
  destruct (decide (length (validProducts _) = 0)); [done|].
  by destruct (decide (0 < length (errors _))).
Qed.

(** Only the CSV branch hands over a batch, and only after the three
    guards and a run of the reducer that does not throw. *)
Lemma handleSubmit_dispatch_csv message isLoading st st' products :
  handleSubmit message isLoading st = (st', Some (CsvInput products)) →
  ∃ acc, normalize (fieldMapping st) (csvData st) = normal acc
         ∧ products = validProducts acc ∧ products ≠ [].
Proof.
  unfold handleSubmit. destruct isLoading; [done|].
  destruct (inputMode st).
  { by destruct (decide _). }
  simpl. destruct (csvFile st); [|done].
  destruct (decide (_ ∨ _)); [done|].
  destruct (normalize _ _) as [acc|error]; [|done].
  destruct (decide (length (validProducts _) = 0)) as [|Hne]; [done|].
  intros [= _ <-]. exists acc. split; [done|]. split; [done|].
  intros Hnil. by rewrite Hnil in Hne.
Qed.

(** C1: for a row whose name cell is not blank and whose price cell is
    a string or absent (the price column is not read from the
    prototype), the price string is the price cell with every character
    other than a digit, a dot or a minus removed, and when that string
    parses, the product pushed carries the name cell and [parseFloat]
    of the price string; the file of header [productName,currentPrice]
    and row [Widget,$19.99], both columns mapped to themselves, is
    submitted as the single product named Widget at price 19.99, the
    binary64 number nearest to 1999/100. *)
Theorem C1_price_stripped_and_parsed message fm acc row index name :
  row !! FieldMapping.productName fm = Some name →
  ¬ Str.all_white_space name →
  ¬ inherits row (FieldMapping.currentPrice fm) →
  let cell := default "" (row !! FieldMapping.currentPrice fm) in
  let priceString := Str.strip_non_price cell in
  list_ascii_of_string priceString
  = List.filter Char.is_price_char (list_ascii_of_string cell)
  ∧ (priceString ≠ "" → Number.isNaN (parseFloat priceString) = false →
     ∃ product,
       normalize_row fm acc row index
       = normal {| validProducts := validProducts acc ++ [product];
                   errors := errors acc |}
       ∧ CsvProduct.productName product = str name
       ∧ CsvProduct.currentPrice product = parseFloat priceString)
  ∧ (handleSubmit message false
       (uploaded ("productName,currentPrice" +:+ nl +:+ "Widget,$19.99")
          (self_mapping []))).2
    = Some (CsvInput
        [ {| CsvProduct.productName := str "Widget";
             CsvProduct.currentPrice := Number.of_decimal false 1999 (-2);
             CsvProduct.userProductUrl := str "";
             CsvProduct.competitorUrls := [] |} ])
  ∧ Number.of_decimal false 1999 (-2) = S754_finite false 5626684784446013 (-48)
  ∧ (Z.abs (5626684784446013 * 100 - 1999 * 2 ^ 48) * 2 ≤ 100)%Z.
Proof.
  intros Hname Hblank Hprice_cell cell priceString.
  split; [apply strip_non_price_chars|]. split; [|by vm_compute].
  intros Hprice Hnan. exists (product_of fm row).
  assert (named fm row) as Hnamed by (by exists name).
  rewrite normalize_row_valid by done.
  split; [done|]. simpl. by rewrite (get_own _ _ _ Hname).
Qed.

Lemma C1_price_stripped_and_parsed_witness :
  ∃ product,
    normalize_row (self_mapping []) {| validProducts := []; errors := [] |}
      {[ "productName" := "Widget"; "currentPrice" := "$19.99" ]} 0
    = normal {| validProducts := [product]; errors := [] |}
    ∧ CsvProduct.productName product = str "Widget"
    ∧ CsvProduct.currentPrice product = parseFloat "19.99".
Proof.
  refine (proj1 (proj2 (C1_price_stripped_and_parsed v8_message (self_mapping [])
            {| validProducts := []; errors := [] |}
            {[ "productName" := "Widget"; "currentPrice" := "$19.99" ]} 0
            "Widget" _ _ _)) _ _).
  - by vm_compute.
  - apply (bool_decide_eq_false_1 (Str.all_white_space "Widget")). by vm_compute.
  - apply (bool_decide_eq_false_1 (inherits _ _)). by vm_compute.
  - by vm_compute.
  - by vm_compute.
Defined.

(** C3: a row whose name cell is absent, empty or white space only is
    skipped and leaves both lists as they were; a row with a name whose
    price cell is a string or absent is reported as missing its price
    when the price string is empty, and with its original cell when the
    price string does not parse, in both cases without a product; the
    cell [N/A] strips to the empty string, so that of the rows
    [Widget,N/A], [,5] and [Gadget,7] only the last gives a product and
    only the first an error. *)
Theorem C3_blank_rows_skipped_bad_prices_reported fm acc row index :
  (blank_name fm row → normalize_row fm acc row index = normal acc)
  ∧ (named fm row → ¬ inherits row (FieldMapping.currentPrice fm) →
     price_string fm row = "" →
     normalize_row fm acc row index
     = normal {| validProducts := validProducts acc;
                 errors := errors acc ++ [price_missing (index + 2)] |})
  ∧ (named fm row → ¬ inherits row (FieldMapping.currentPrice fm) →
     price_string fm row ≠ "" →
     Number.isNaN (parseFloat (price_string fm row)) = true →
     normalize_row fm acc row index
     = normal {| validProducts := validProducts acc;
                 errors := errors acc ++
                   [price_invalid (index + 2)
                      (Row.get row (FieldMapping.currentPrice fm))] |})
  ∧ Str.strip_non_price "N/A" = ""
  ∧ (let st := uploaded ("productName,currentPrice" +:+ nl +:+ "Widget,N/A" +:+ nl
                          +:+ ",5" +:+ nl +:+ "Gadget,7") (self_mapping []) in
     ∃ result, normalize (fieldMapping st) (csvData st) = normal result
       ∧ CsvProduct.productName <$> validProducts result = [str "Gadget"]
       ∧ errors result = ["Row 2: Price is missing."]).
Proof.
  split; [apply normalize_row_skipped|].
  split; [apply normalize_row_price_missing|].
  split; [apply normalize_row_price_invalid|].
  split; [by vm_compute|].
  eexists. split; [by vm_compute|]. by vm_compute.
Qed.

(** C4: when a file is chosen, both required columns are mapped and the
    run of the reducer ends with no product, the submission ends with
    the error [Analysis failed.] followed by the joined row errors,
    each of which occurs in the message, or by the empty-batch message
    when there is no row error; nothing is handed to [onAnalyze]. *)
Theorem C4_no_valid_rows_fails message st file acc :
  inputMode st = csv → csvFile st = Some file →
  FieldMapping.productName (fieldMapping st) ≠ "" →
  FieldMapping.currentPrice (fieldMapping st) ≠ "" →
  normalize (fieldMapping st) (csvData st) = normal acc →
  validProducts acc = [] →
  let errs := errors acc in
  ∃ text,
    handleSubmit message false st = (setCsvError (Some text) st, None)
    ∧ Str.occurs_in "Analysis failed." text
    ∧ (∀ e, e ∈ errs → Str.occurs_in e text)
    ∧ (errs = [] → text = "Analysis failed. " +:+ empty_batch_message)
    ∧ (∀ isLoading, (handleSubmit message isLoading st).2 = None).
Proof.
  intros Hmode Hfile Hname Hprice Hrun Hnone errs.
  pose proof (handleSubmit_csv_ready message st file Hmode Hfile Hname Hprice) as Hsub.
  rewrite Hrun, Hnone in Hsub.
  rewrite decide_True in Hsub by done. fold errs in Hsub.
  exists (analysis_failed errs). split; [done|]. split; [|split; [|split]].
  - unfold analysis_failed. exists "", (" " +:+
      (if decide (0 < length errs) then Str.join " " errs else empty_batch_message)).
    done.
  - intros e He. unfold analysis_failed. apply occurs_in_app_r.
    rewrite decide_True; [by apply join_occurs|].
    destruct errs; [by apply elem_of_nil in He|simpl; lia].
  - intros ->. done.
  - intros [|]; [done|]. by rewrite Hsub.
Qed.

Lemma C4_no_valid_rows_fails_witness :
  let st := uploaded ("productName,currentPrice" +:+ nl +:+ "Widget,N/A" +:+ nl
                       +:+ "Gadget,-") (self_mapping []) in
  ∃ text,
    handleSubmit v8_message false st = (setCsvError (Some text) st, None)
    ∧ Str.occurs_in "Analysis failed." text
    ∧ (∀ e, e ∈ ["Row 2: Price is missing.";
                 price_invalid 3 (str "-")] → Str.occurs_in e text)
    ∧ (["Row 2: Price is missing."; price_invalid 3 (str "-")] = [] →
       text = "Analysis failed. " +:+ empty_batch_message)
    ∧ (∀ isLoading, (handleSubmit v8_message isLoading st).2 = None).
Proof.
  refine (C4_no_valid_rows_fails v8_message
            (uploaded ("productName,currentPrice" +:+ nl +:+ "Widget,N/A" +:+ nl
                        +:+ "Gadget,-") (self_mapping []))
            {| name := "products.csv"; type := "text/csv";
               text := Some ("productName,currentPrice" +:+ nl +:+ "Widget,N/A" +:+ nl
                        +:+ "Gadget,-") |}
            {| validProducts := [];
               errors := ["Row 2: Price is missing."; price_invalid 3 (str "-")] |}
            _ _ _ _ _ _); by vm_compute.
Defined.

Lemma toggle_absent header fm :
  header ∉ FieldMapping.competitorUrls fm →
  FieldMapping.competitorUrls (handleCompetitorHeaderToggle header fm)
  = FieldMapping.competitorUrls fm ++ [header].
Proof. intros H. unfold handleCompetitorHeaderToggle. simpl. by rewrite decide_False. Qed.

Lemma toggle_present header fm :
  header ∈ FieldMapping.competitorUrls fm →
  FieldMapping.competitorUrls (handleCompetitorHeaderToggle header fm)
  = filter (λ h, h ≠ header) (FieldMapping.competitorUrls fm).
Proof. intros H. unfold handleCompetitorHeaderToggle. simpl. by rewrite decide_True. Qed.

(** C6 (as amended): the competitor URLs of a validated row that holds
    a cell for every selected column (no selected column is read from
    the prototype) are exactly the non-empty cells of the selected
    columns, in the order of the selection list; toggling a column that
    is not selected puts it at the end of that list and toggling a
    selected one removes it, so the order is the one in which the
    columns were switched on. *)
Theorem C6_competitor_urls_in_selection_order fm acc row index :
  accepted fm row →
  Forall (λ header, ¬ inherits row header) (FieldMapping.competitorUrls fm) →
  ∃ product,
    normalize_row fm acc row index
    = normal {| validProducts := validProducts acc ++ [product];
                errors := errors acc |}
    ∧ CsvProduct.competitorUrls product
      = str <$> filter (λ u, u ≠ "")
          ((λ header, default "" (row !! header)) <$> FieldMapping.competitorUrls fm)
    ∧ (∀ header, header ∉ FieldMapping.competitorUrls fm →
         FieldMapping.competitorUrls (handleCompetitorHeaderToggle header fm)
         = FieldMapping.competitorUrls fm ++ [header])
    ∧ (∀ header, header ∈ FieldMapping.competitorUrls fm →
         FieldMapping.competitorUrls (handleCompetitorHeaderToggle header fm)
         = filter (λ h, h ≠ header) (FieldMapping.competitorUrls fm)).
Proof.
  intros (Hname & Hno & Hprice & Hnan) Hown. exists (product_of fm row).
  split; [by apply normalize_row_valid|].
  split; [by apply competitor_urls_selection_order|].
  split; intros header; [apply toggle_absent|apply toggle_present].
Qed.

Lemma C6_competitor_urls_in_selection_order_witness :
  let row : gmap string string :=
    {[ "productName" := "Widget"; "currentPrice" := "5";
       "c1" := "u1"; "c2" := ""; "c3" := "u3" ]} in
  ∃ product,
    normalize_row (self_mapping ["c3"; "c2"; "c1"])
      {| validProducts := []; errors := [] |} row 0
    = normal {| validProducts := [product]; errors := [] |}
    ∧ CsvProduct.competitorUrls product = [str "u3"; str "u1"].
Proof.
  intros row.
  destruct (C6_competitor_urls_in_selection_order (self_mapping ["c3"; "c2"; "c1"])
              {| validProducts := []; errors := [] |} row 0)
    as (product & Hrow & Hurls & _).
  - apply (bool_decide_unpack (accepted _ _)). by vm_compute.
  - apply (bool_decide_unpack (Forall _ _)). by vm_compute.
  - exists product. split; [exact Hrow|]. rewrite Hurls. by vm_compute.
Defined.

(** C6 fails as stated: with the columns [c1] and [c2] in this order in
    the file, switching on [c2] and then [c1] gives the competitor URLs
    in the order [u2], [u1], not in the order of the columns. *)
Lemma C6_toggle_order_counterexample :
  let mapping :=
    handleCompetitorHeaderToggle "c1"
      (handleCompetitorHeaderToggle "c2" (self_mapping [])) in
  let st := uploaded ("productName,currentPrice,c1,c2" +:+ nl +:+ "Widget,5,u1,u2")
              mapping in
  (handleSubmit v8_message false st).2
  = Some (CsvInput
      [ {| CsvProduct.productName := str "Widget";
           CsvProduct.currentPrice := parseFloat "5";
           CsvProduct.userProductUrl := str "";
           CsvProduct.competitorUrls := [str "u2"; str "u1"] |} ])
  ∧ competitor_urls_in_column_order (csvHeaders st)
      (FieldMapping.competitorUrls mapping) <$> csvData st
    = [[str "u1"; str "u2"]].
Proof. by vm_compute. Qed.

(** C7 (as amended): every product the normaliser keeps, and so every
    product handed to [onAnalyze], has a name that is a string, not
    empty and not white space only, a price that is a number other than
    NaN, and competitor URLs none of which is empty or [undefined];
    they are all non-empty strings when every row holds a cell for
    every selected column (no selected column is read from the
    prototype). *)
Theorem C7_products_well_formed message fm rows :
  (∀ acc, normalize fm rows = normal acc →
     Forall (λ p, nonempty_string (CsvProduct.productName p)
                  ∧ well_formed_product p) (validProducts acc)
     ∧ ((∀ row header, row ∈ rows → header ∈ FieldMapping.competitorUrls fm →
                       ¬ inherits row header) →
        Forall (λ p, Forall nonempty_string (CsvProduct.competitorUrls p))
          (validProducts acc)))
  ∧ ∀ isLoading st st' products,
      handleSubmit message isLoading st = (st', Some (CsvInput products)) →
      Forall (λ p, nonempty_string (CsvProduct.productName p)
                   ∧ well_formed_product p) products
      ∧ ((∀ row header, row ∈ csvData st →
            header ∈ FieldMapping.competitorUrls (fieldMapping st) →
            ¬ inherits row header) →
         Forall (λ p, Forall nonempty_string (CsvProduct.competitorUrls p)) products).
Proof.
  assert (∀ fm rows acc, normalize fm rows = normal acc →
     Forall (λ p, nonempty_string (CsvProduct.productName p)
                  ∧ well_formed_product p) (validProducts acc)
     ∧ ((∀ row header, row ∈ rows → header ∈ FieldMapping.competitorUrls fm →
                       ¬ inherits row header) →
        Forall (λ p, Forall nonempty_string (CsvProduct.competitorUrls p))
          (validProducts acc))) as Hall.
  { clear. intros fm rows acc Hrun. split.
    - apply (normalize_products fm _ rows acc); [|done]. intros row _ Hacc.
      pose proof (product_of_well_formed fm row Hacc) as Hwf.
      split; [|done]. destruct Hwf as ((name & Hname & Hws) & _).
      rewrite Hname. simpl. by apply not_all_white_space_nonempty.
    - intros Hown. apply (normalize_products fm _ rows acc); [|done].
      intros row Hin Hacc. rewrite competitor_urls_selection_order.
      + apply Forall_fmap, Forall_forall.
        by intros u [Hu _]%list_elem_of_filter.
      + apply Forall_forall. intros header Hheader. by apply (Hown row). }
  split; [apply Hall|].
  intros isLoading st st' products (acc & Hrun & -> & _)%handleSubmit_dispatch_csv.
  by apply Hall.
Qed.

(** C7 fails as stated: the price cell [-5] gives a product with a
    negative price, and a price cell of a one followed by 309 zeros gives
    a product with an infinite price. *)
Lemma C7_negative_and_infinite_price_counterexample :
  let big := "1" +:+ string_of_list_ascii (replicate 309 "0"%char) in
  let st := uploaded ("productName,currentPrice" +:+ nl +:+ "Widget,-5" +:+ nl
                       +:+ "Gadget," +:+ big) (self_mapping []) in
  ∃ p q,
    (handleSubmit v8_message false st).2 = Some (CsvInput [p; q])
    ∧ CsvProduct.currentPrice p = S754_finite true 5629499534213120 (-50)
    ∧ Number.is_nonnegative (CsvProduct.currentPrice p) = false
    ∧ CsvProduct.currentPrice q = S754_infinity false
    ∧ Number.isFinite (CsvProduct.currentPrice q) = false
    ∧ ¬ data_model_invariant p ∧ ¬ data_model_invariant q.
Proof.
  eexists _, _. split; [by vm_compute|]. simpl.
  split; [by vm_compute|]. split; [by vm_compute|].
  split; [by vm_compute|]. split; [by vm_compute|].
  split; intros (_ & Hfin & Hpos & _); vm_compute in Hfin, Hpos; done.
Qed.

(** C9 (as amended): on the CSV tab, when the product-name or the price
    column is not mapped, no request is handed to [onAnalyze] whatever
    the rows are; when moreover a file is chosen and no analysis is
    running, the error shown is the one naming ['Product Name'] and
    ['Current Price'], and it does not depend on the rows. *)
Theorem C9_incomplete_mapping_blocks message st :
  inputMode st = csv →
  FieldMapping.productName (fieldMapping st) = ""
  ∨ FieldMapping.currentPrice (fieldMapping st) = "" →
  (∀ isLoading rows, (handleSubmit message isLoading (setCsvData rows st)).2 = None)
  ∧ (∀ file rows, csvFile st = Some file →
       handleSubmit message false (setCsvData rows st)
       = (setCsvError (Some mapping_error) (setCsvData rows st), None))
  ∧ Str.occurs_in "'Product Name'" mapping_error
  ∧ Str.occurs_in "'Current Price'" mapping_error.
Proof.
  intros Hmode Hmap. split; [|split; [|split]].
  - intros [|] rows; [done|]. unfold handleSubmit. simpl. rewrite Hmode.
    destruct (csvFile st); [|done]. by rewrite decide_True.
  - intros file rows Hfile. unfold handleSubmit. simpl. rewrite Hmode, Hfile.
    by rewrite decide_True.
  - by apply includes_spec.
  - by apply includes_spec.
Qed.

Lemma C9_incomplete_mapping_blocks_witness :
  let st := uploaded ("productName,currentPrice" +:+ nl +:+ "Widget,5")
              FieldMapping.empty in
  (handleSubmit v8_message false (setCsvData (csvData st) st)).2 = None
  ∧ csvError (handleSubmit v8_message false (setCsvData (csvData st) st)).1
    = Some mapping_error.
Proof.
  intros st.
  destruct (C9_incomplete_mapping_blocks v8_message st) as (Hnone & Hmsg & _).
  - by vm_compute.
  - left. by vm_compute.
  - split; [apply Hnone|].
    by rewrite (Hmsg {| name := "products.csv"; type := "text/csv";
                        text := Some ("productName,currentPrice" +:+ nl +:+ "Widget,5") |}).
Defined.

(** C9 fails as stated: on the CSV tab of a fresh form no column is
    mapped, and submitting shows the request to choose a file, which
    names neither required field. *)
Lemma C9_no_file_counterexample :
  let st := setInputMode csv initial_state in
  FieldMapping.productName (fieldMapping st) = ""
  ∧ handleSubmit v8_message false st
    = (setCsvError (Some "Please select a CSV file.") st, None)
  ∧ ¬ Str.occurs_in "Product Name" "Please select a CSV file."
  ∧ ¬ Str.occurs_in "Current Price" "Please select a CSV file.".
Proof.
  split; [done|]. split; [done|].
  split; intros H%includes_spec; by vm_compute in H.
Qed.
End submit.

(** ** Rounding never gives NaN *)

Section rounding.
Context (prec emax : Z).
Local Open Scope Z_scope.

Lemma shr_1_nonneg mrs : 0 ≤ shr_m mrs → 0 ≤ shr_m (shr_1 mrs).
Proof.
  destruct mrs as [m r s]. simpl.
  destruct m as [|[p|p|]|p]; simpl; lia.
Qed.

Lemma iter_shr_1_nonneg n mrs :
  0 ≤ shr_m mrs → 0 ≤ shr_m (SpecFloat.iter_pos shr_1 n mrs).
Proof.
  revert mrs. induction n as [n IH|n IH|]; intros mrs H; simpl.
  - apply IH, IH, shr_1_nonneg, H.
  - apply IH, IH, H.
  - by apply shr_1_nonneg.
Qed.

Lemma shr_fexp_nonneg m e l :
  0 ≤ m → 0 ≤ shr_m (shr_fexp prec emax m e l).1.
Proof.
  intros Hm. unfold shr_fexp, shr.
  assert (0 ≤ shr_m (shr_record_of_loc m l)) as H0.
  { by destruct l as [|[]]. }
  destruct (fexp prec emax (Zdigits2 m + e) - e); simpl; try done.
  by apply iter_shr_1_nonneg.
Qed.

Lemma round_nearest_even_nonneg m l : 0 ≤ m → 0 ≤ round_nearest_even m l.
Proof.
  intros Hm. destruct l as [|[]]; simpl; try lia. destruct (Z.even m); lia.
Qed.

Lemma binary_round_aux_not_nan sx mx ex lx :
  0 ≤ mx → binary_round_aux prec emax sx mx ex lx ≠ S754_nan.
Proof.
  intros Hm. unfold binary_round_aux.
  pose proof (shr_fexp_nonneg mx ex lx Hm) as H1.
  destruct (shr_fexp prec emax mx ex lx) as [mrs' e']. simpl in H1.
  pose proof (shr_fexp_nonneg _ e' loc_Exact
                (round_nearest_even_nonneg _ (loc_of_shr_record mrs') H1)) as H2.
  destruct (shr_fexp prec emax _ e' loc_Exact) as [mrs'' e'']. simpl in H2.
  destruct (shr_m mrs''); [done| |lia].
  by destruct (e'' <=? emax - prec).
Qed.

(** The quotient of two finite non-zero numbers is a number. *)
Lemma SFdiv_finite_not_nan sx mx sy my :
  SFdiv prec emax (S754_finite sx mx 0) (S754_finite sy my 0) ≠ S754_nan.
Proof.
  unfold SFdiv, SFdiv_core_binary.
  set (m' := match _ - _ with Z0 => _ | Zpos _ => _ | Zneg _ => _ end).
  assert (0 ≤ m') as Hm'.
  { subst m'. destruct (_ - _); try lia. apply Z.shiftl_nonneg. lia. }
  pose proof (Z_div_mod m' (Z.pos my) eq_refl) as Hdiv.
  destruct (Z.div_eucl m' (Z.pos my)) as [q r].
  apply binary_round_aux_not_nan. nia.
Qed.
End rounding.

Lemma of_decimal_not_NaN neg m e10 :
  Number.isNaN (Number.of_decimal neg m e10) = false.
Proof.
  unfold Number.of_decimal. destruct m as [|p]; [done|].
  pose proof (SFdiv_finite_not_nan Number.prec Number.emax neg
                (p * Number.pow10 (Z.max 0 e10)) false
                (Number.pow10 (Z.max 0 (- e10)))) as Hne.
  by destruct (SFdiv _ _ _ _).
Qed.

(** ** [parseFloat] takes the longest literal prefix *)

Section scanner.
Import Grammar.
Implicit Types (s r rest ds ip fp m ex u p q : string) (c d : ascii).

Lemma length_app s r :
  String.length (s +:+ r) = String.length s + String.length r.
Proof.
  induction s as [|c s IH]; [done|]. rewrite app_String. simpl. by rewrite IH.
Qed.

Lemma digits_nil : digits "".
Proof. constructor. Qed.

Lemma digits_cons c s : digits (String c s) ↔ Char.is_digit c = true ∧ digits s.
Proof. unfold digits; simpl. by rewrite Forall_cons. Qed.

Lemma digits_snoc ds d :
  digits ds → Char.is_digit d = true → digits (ds +:+ String d "").
Proof.
  intros Hds Hd. induction ds as [|c ds IH].
  - rewrite app_empty_l. apply digits_cons. split; [done|apply digits_nil].
  - rewrite app_String. apply digits_cons in Hds as [Hc Hds].
    apply digits_cons. auto.
Qed.

Lemma DecimalDigits_snoc ds d :
  digits ds → Char.is_digit d = true → DecimalDigits (ds +:+ String d "").
Proof.
  intros Hds Hd. split; [|by apply digits_snoc].
  destruct ds; [done|by rewrite app_String].
Qed.

Lemma DecimalDigits_head ds :
  DecimalDigits ds → ∃ c ds', ds = String c ds' ∧ Char.is_digit c = true.
Proof.
  intros [Hne Hds]. destruct ds as [|c ds]; [done|].
  apply digits_cons in Hds as [Hc _]. eauto.
Qed.

Lemma span_digits_app ds r :
  digits ds → no_head Char.is_digit r → Scan.span_digits (ds +:+ r) = (ds, r).
Proof.
  intros Hds Hr. induction ds as [|c ds IH].
  - rewrite app_empty_l. destruct r as [|c r]; [done|]. simpl in *. by rewrite Hr.
  - apply digits_cons in Hds as [Hc Hds]. rewrite app_String. simpl.
    by rewrite Hc, IH.
Qed.

Lemma span_digits_spec s ds r :
  Scan.span_digits s = (ds, r) → s = ds +:+ r ∧ digits ds.
Proof.
  revert ds r. induction s as [|c s IH]; intros ds r; simpl.
  - intros [= <- <-]. split; [done|apply digits_nil].
  - destruct (Char.is_digit c) eqn:Hc.
    + destruct (Scan.span_digits s) as [ds' r'] eqn:Hs. intros [= <- <-].
      destruct (IH _ _ eq_refl) as [-> Hds']. rewrite app_String.
      split; [done|]. apply digits_cons. auto.
    + intros [= <- <-]. split; [done|apply digits_nil].
Qed.

Lemma take_sign_spec s neg r :
  Scan.take_sign s = (neg, r) →
  (s = String "-" r ∧ neg = true) ∨ (s = String "+" r ∧ neg = false)
  ∨ (s = r ∧ neg = false).
Proof.
  destruct s as [|c s]; simpl; [intros [= <- <-]; auto|].
  destruct (Ascii.eqb_spec c "-") as [->|_]; [intros [= <- <-]; auto|].
  destruct (Ascii.eqb_spec c "+") as [->|_]; intros [= <- <-]; auto.
Qed.

Lemma take_sign_digits ds r :
  DecimalDigits ds → Scan.take_sign (ds +:+ r) = (false, ds +:+ r).
Proof.
  intros (c & ds' & -> & Hc)%DecimalDigits_head. rewrite app_String. simpl.
  destruct (Ascii.eqb_spec c "-") as [->|_]; [done|].
  by destruct (Ascii.eqb_spec c "+") as [->|_].
Qed.

(** An exponent part followed by something that is no digit is scanned
    whole. *)
Lemma exponent_part ex :
  ExponentPart ex →
  ∃ e, ∀ r, no_head Char.is_digit r → Scan.exponent (ex +:+ r) = (e, r).
Proof.
  assert (∀ si, SignedInteger si →
    ∃ e, ∀ r, no_head Char.is_digit r →
      (let '(neg, s2) := Scan.take_sign (si +:+ r) in
       let '(ds, s3) := Scan.span_digits s2 in
       if decide (ds = "") then None
       else Some ((if neg then Z.opp else id) (Z.of_N (Scan.digits_value ds)), s3))
      = Some (e, r)) as Hsi.
  { intros si [ds Hds|ds Hds|ds Hds].
    - exists (Z.of_N (Scan.digits_value ds)). intros r Hr.
      rewrite take_sign_digits by done.
      rewrite span_digits_app by (done || apply Hds).
      destruct Hds as [Hne _]. by rewrite decide_False.
    - exists (Z.of_N (Scan.digits_value ds)). intros r Hr.
      rewrite app_String. simpl.
      rewrite span_digits_app by (done || apply Hds).
      destruct Hds as [Hne _]. by rewrite decide_False.
    - exists (- Z.of_N (Scan.digits_value ds))%Z. intros r Hr.
      rewrite app_String. simpl.
      rewrite span_digits_app by (done || apply Hds).
      destruct Hds as [Hne _]. by rewrite decide_False. }
  intros [si Hs|si Hs]; destruct (Hsi si Hs) as [e He]; exists e; intros r Hr;
    specialize (He r Hr); rewrite app_String; simpl;
    destruct (Scan.take_sign (si +:+ r)) as [neg s2];
    destruct (Scan.span_digits s2) as [ds s3];
    destruct (decide (ds = "")); by simplify_eq.
Qed.

(** Where no exponent part starts, none is scanned. *)
Lemma exponent_none r :
  (∀ ex r', r = ex +:+ r' → ¬ ExponentPart ex) → Scan.exponent r = (0%Z, r).
Proof.
  intros Hno. destruct r as [|c s1]; [done|]. simpl.
  destruct (Ascii.eqb c "e" || Ascii.eqb c "E") eqn:Hc; [|done].
  destruct (Scan.take_sign s1) as [neg s2] eqn:Hsign.
  destruct (Scan.span_digits s2) as [ds s3] eqn:Hspan.
  destruct (decide (ds = "")) as [|Hne]; [done|]. exfalso.
  apply span_digits_spec in Hspan as [-> Hds].
  assert (DecimalDigits ds) as Hdd by done.
  assert (∃ si, s1 = si +:+ s3 ∧ SignedInteger si) as (si & -> & Hsi).
  { apply take_sign_spec in Hsign as [[-> _]|[[-> _]|[-> _]]].
    - exists (String "-" ds). split; [by rewrite app_String|by constructor].
    - exists (String "+" ds). split; [by rewrite app_String|by constructor].
    - exists ds. split; [done|by constructor]. }
  apply (Hno (String c si) s3); [by rewrite app_String|].
  apply orb_true_iff in Hc as [->%Ascii.eqb_eq| ->%Ascii.eqb_eq]; by constructor.
Qed.

Lemma drop_prefix_Infinity_digit c s :
  Char.is_digit c = true ∨ c = "."%char → Str.drop_prefix "Infinity" (String c s) = None.
Proof.
  intros Hc. cbn [Str.drop_prefix].
  destruct (Ascii.eqb_spec "I" c) as [<-|_]; [|done]. by destruct Hc.
Qed.

Lemma keep_digits_digits ds : digits ds → keep_digits ds = ds.
Proof.
  induction ds as [|c ds IH]; [done|]. intros [Hc Hds]%digits_cons.
  simpl. by rewrite Hc, IH.
Qed.

Lemma keep_digits_app s r : keep_digits (s +:+ r) = keep_digits s +:+ keep_digits r.
Proof.
  induction s as [|c s IH]; [done|]. rewrite app_String. simpl.
  destruct (Char.is_digit c); by rewrite ?app_String, IH.
Qed.

Lemma fraction_digits_digits ds : digits ds → fraction_digits ds = 0.
Proof.
  induction ds as [|c ds IH]; [done|]. intros [Hc Hds]%digits_cons. simpl.
  destruct (Ascii.eqb_spec c ".") as [->|_]; [done|auto].
Qed.

Lemma fraction_digits_dot ip fp :
  digits ip → fraction_digits (ip +:+ String "." fp) = String.length fp.
Proof.
  induction ip as [|c ip IH]; [done|]. intros [Hc Hip]%digits_cons.
  rewrite app_String. simpl.
  destruct (Ascii.eqb_spec c ".") as [->|_]; [done|auto].
Qed.

(** The part of a literal before its exponent is scanned whole when
    what follows neither is a digit nor, after digits alone, a dot; its
    value is its significand scaled by its fraction digits and by the
    exponent that follows. *)
Lemma scan_mantissa m neg r :
  Mantissa m →
  no_head Char.is_digit r →
  (Mantissa (m +:+ ".") → no_head (λ c, Ascii.eqb c ".") r) →
  Scan.unsigned neg (m +:+ r)
  = Some (Number.of_decimal neg (significand m)
            ((Scan.exponent r).1 - Z.of_nat (fraction_digits m)),
          (Scan.exponent r).2).
Proof.
  unfold significand. intros [ip fp Hip Hfp|fp Hfp|ip Hip] Hr Hdot.
  - rewrite keep_digits_app, fraction_digits_dot by apply Hip.
    change (keep_digits (String "." fp)) with (keep_digits fp).
    rewrite !keep_digits_digits by (done || apply Hip).
    rewrite app_String_assoc, app_String.
    destruct (DecimalDigits_head ip Hip) as (c & ip' & -> & Hc).
    unfold Scan.unsigned. rewrite app_String.
    rewrite drop_prefix_Infinity_digit by auto. rewrite <- app_String.
    rewrite span_digits_app by (done || apply Hip).
    simpl. rewrite span_digits_app by done.
    by destruct (Scan.exponent r).
  - change (keep_digits (String "." fp)) with (keep_digits fp).
    change (fraction_digits (String "." fp)) with (String.length fp).
    rewrite keep_digits_digits by apply Hfp.
    rewrite app_String.
    unfold Scan.unsigned. rewrite drop_prefix_Infinity_digit by auto.
    simpl. rewrite span_digits_app by (done || apply Hfp).
    destruct Hfp as [Hne _]. rewrite decide_False by (by intros [_ ?]).
    by destruct (Scan.exponent r).
  - rewrite keep_digits_digits, fraction_digits_digits by apply Hip.
    assert (no_head (λ c, Ascii.eqb c ".") r) as Hr'.
    { apply Hdot. apply (M_int_dot ip ""); [done|apply digits_nil]. }
    destruct (DecimalDigits_head ip Hip) as (c & ip' & -> & Hc).
    unfold Scan.unsigned. rewrite app_String.
    rewrite drop_prefix_Infinity_digit by auto. rewrite <- app_String.
    rewrite span_digits_app by (done || apply Hip).
    assert (match r with
            | String c0 r0 =>
                if Ascii.eqb c0 "." then Scan.span_digits r0 else ("", r)
            | "" => ("", r)
            end = ("", r)) as ->.
    { destruct r as [|c0 r0]; [done|]. simpl in Hr'. by rewrite Hr'. }
    rewrite decide_False by (by intros [? _]).
    destruct (Scan.exponent r). by rewrite app_empty_r.
Qed.

Lemma Mantissa_snoc_digit m d :
  Mantissa m → Char.is_digit d = true → Mantissa (m +:+ String d "").
Proof.
  intros [ip fp Hip Hfp|fp Hfp|ip Hip] Hd.
  - rewrite app_String_assoc, app_String. constructor; [done|].
    by apply digits_snoc.
  - rewrite app_String. constructor. apply DecimalDigits_snoc; [apply Hfp|done].
  - apply M_int, DecimalDigits_snoc; [apply Hip|done].
Qed.

Lemma ExponentPart_snoc_digit ex d :
  ExponentPart ex → Char.is_digit d = true → ExponentPart (ex +:+ String d "").
Proof.
  intros Hex Hd.
  assert (∀ si, SignedInteger si → SignedInteger (si +:+ String d "")) as Hsi.
  { intros si [ds Hds|ds Hds|ds Hds]; rewrite ?app_String; constructor;
      apply DecimalDigits_snoc; (apply Hds || done). }
  destruct Hex as [si Hs|si Hs]; rewrite app_String; constructor; auto.
Qed.

Lemma ExponentPart_head ex :
  ExponentPart ex →
  ∃ c ex', ex = String c ex' ∧ Char.is_digit c = false ∧ Ascii.eqb c "." = false.
Proof. intros [si _|si _]; eauto. Qed.

Lemma Mantissa_head m :
  Mantissa m →
  ∃ c m', m = String c m' ∧ (Char.is_digit c = true ∨ c = "."%char).
Proof.
  intros [ip fp Hip Hfp|fp Hfp|ip Hip].
  - destruct (DecimalDigits_head ip Hip) as (c & ip' & -> & Hc).
    rewrite app_String. eauto.
  - eauto.
  - destruct (DecimalDigits_head ip Hip) as (c & ip' & -> & Hc). eauto.
Qed.

(** The scanner gives the value of the longest prefix that is an
    unsigned literal, and leaves the rest. *)
Lemma scan_unsigned_longest u rest neg :
  StrUnsignedDecimalLiteral u →
  (∀ q r, u +:+ rest = q +:+ r → StrUnsignedDecimalLiteral q →
          String.length q ≤ String.length u) →
  ∃ v, Scan.unsigned neg (u +:+ rest) = Some (v, rest)
       ∧ Scan.unsigned neg u = Some (v, "")
       ∧ Number.isNaN v = false.
Proof.
  intros [|m Hm|m ex Hm Hex] Hmax.
  - exists (S754_infinity neg). unfold Scan.unsigned.
    assert (Str.drop_prefix "Infinity" ("Infinity" +:+ rest) = Some rest) as ->
      by by apply drop_prefix_Some.
    done.
  - assert (no_head Char.is_digit rest) as Hdigit.
    { destruct rest as [|d rest']; [done|]. simpl.
      destruct (Char.is_digit d) eqn:Hd; [|done]. exfalso.
      specialize (Hmax (m +:+ String d "") rest').
      rewrite length_app in Hmax. simpl in Hmax.
      assert (String.length m + 1 ≤ String.length m); [|lia].
      apply Hmax; [by rewrite app_String_assoc|].
      by apply SUDL_mantissa, Mantissa_snoc_digit. }
    assert (Mantissa (m +:+ ".") → no_head (λ c, Ascii.eqb c ".") rest) as Hdot.
    { intros Hm'. destruct rest as [|d rest']; [done|]. simpl.
      destruct (Ascii.eqb_spec d ".") as [->|]; [|done]. exfalso.
      specialize (Hmax (m +:+ ".") rest').
      rewrite length_app in Hmax. simpl in Hmax.
      assert (String.length m + 1 ≤ String.length m); [|lia].
      apply Hmax; [by rewrite app_String_assoc|]. by apply SUDL_mantissa. }
    assert (Scan.exponent rest = (0%Z, rest)) as Hexp.
    { apply exponent_none. intros ex r' -> Hex.
      specialize (Hmax (m +:+ ex) r'). rewrite length_app in Hmax.
      destruct (ExponentPart_head ex Hex) as (c & ex' & -> & _).
      simpl in Hmax.
      assert (String.length m + S (String.length ex') ≤ String.length m); [|lia].
      apply Hmax; [by rewrite app_String_assoc|]. by apply SUDL_exponent. }
    exists (Number.of_decimal neg (significand m)
              (0 - Z.of_nat (fraction_digits m))).
    split; [|split].
    + rewrite (scan_mantissa m neg rest Hm Hdigit Hdot). by rewrite Hexp.
    + rewrite <- (app_empty_r m) at 1. by rewrite (scan_mantissa m neg "").
    + apply of_decimal_not_NaN.
  - assert (no_head Char.is_digit rest) as Hdigit.
    { destruct rest as [|d rest']; [done|]. simpl.
      destruct (Char.is_digit d) eqn:Hd; [|done]. exfalso.
      specialize (Hmax (m +:+ ex +:+ String d "") rest').
      rewrite !length_app in Hmax. simpl in Hmax.
      assert (String.length m + (String.length ex + 1)
              ≤ String.length m + String.length ex); [|lia].
      apply Hmax; [by rewrite !app_String_assoc|].
      by apply SUDL_exponent, ExponentPart_snoc_digit. }
    destruct (exponent_part ex Hex) as [e He].
    destruct (ExponentPart_head ex Hex) as (c & ex' & Heq & Hc1 & Hc2).
    exists (Number.of_decimal neg (significand m)
              (e - Z.of_nat (fraction_digits m))).
    split; [|split].
    + rewrite app_String_assoc, scan_mantissa; [by rewrite (He rest Hdigit)|done|..];
        rewrite Heq, app_String; simpl; auto.
    + rewrite <- (app_empty_r ex) at 1.
      rewrite scan_mantissa; [by rewrite (He "" I)|done|..];
        rewrite app_empty_r, Heq; simpl; auto.
    + apply of_decimal_not_NaN.
Qed.

Lemma unsigned_head u :
  StrUnsignedDecimalLiteral u →
  ∃ c u', u = String c u'
          ∧ (c = "I"%char ∨ Char.is_digit c = true ∨ c = "."%char).
Proof.
  intros [|m Hm|m ex Hm Hex].
  - eauto.
  - destruct (Mantissa_head m Hm) as (c & m' & -> & Hc).
    exists c, m'. tauto.
  - destruct (Mantissa_head m Hm) as (c & m' & -> & Hc).
    rewrite app_String. exists c, (m' +:+ ex). tauto.
Qed.

Lemma digit_not_white_space c :
  Char.is_digit c = true → Char.is_white_space c = false.
Proof.
  unfold Char.is_digit, Char.is_white_space. cbv zeta.
  rewrite andb_true_iff, !N.leb_le. intros [Hlo Hhi].
  apply orb_false_iff. split; [apply orb_false_iff; split|].
  - apply andb_false_iff. right. apply N.leb_gt. lia.
  - apply N.eqb_neq. lia.
  - apply N.eqb_neq. lia.
Qed.

Lemma take_sign_unsigned u rest :
  StrUnsignedDecimalLiteral u →
  Scan.take_sign (u +:+ rest) = (false, u +:+ rest).
Proof.
  intros (c & u' & -> & Hc)%unsigned_head. rewrite app_String. simpl.
  destruct (Ascii.eqb_spec c "-") as [->|_]; [by destruct Hc as [|[|]]|].
  destruct (Ascii.eqb_spec c "+") as [->|_]; [by destruct Hc as [|[|]]|done].
Qed.

Lemma trimStart_literal p rest :
  StrDecimalLiteral p → Str.trimStart (p +:+ rest) = p +:+ rest.
Proof.
  assert (∀ u, StrUnsignedDecimalLiteral u →
               ∃ c u', u = String c u' ∧ Char.is_white_space c = false) as Hu.
  { intros u (c & u' & -> & Hc)%unsigned_head. exists c, u'. split; [done|].
    destruct Hc as [->|[Hc| ->]]; [done| |done].
    by apply digit_not_white_space. }
  intros [u (c & u' & -> & Hc)%Hu|u _|u _]; rewrite app_String; simpl; [|done..].
  by rewrite Hc.
Qed.

(** The scanner on a signed literal. *)
Lemma scan_literal_longest p rest :
  longest_literal p rest →
  ∃ v, Scan.literal (p +:+ rest) = Some (v, rest)
       ∧ Scan.literal p = Some (v, "")
       ∧ Number.isNaN v = false.
Proof.
  intros [[u Hu|u Hu|u Hu] Hmax]; unfold Scan.literal.
  - pose proof (take_sign_unsigned u "" Hu) as Hu0. rewrite app_empty_r in Hu0.
    rewrite (take_sign_unsigned u rest Hu), Hu0.
    apply scan_unsigned_longest; [done|].
    intros q r Heq Hq. apply (Hmax q r Heq). by constructor.
  - rewrite app_String. simpl. apply scan_unsigned_longest; [done|].
    intros q r Heq Hq. apply le_S_n.
    apply (Hmax (String "+" q) r); [by rewrite !app_String, Heq|by constructor].
  - rewrite app_String. simpl. apply scan_unsigned_longest; [done|].
    intros q r Heq Hq. apply le_S_n.
    apply (Hmax (String "-" q) r); [by rewrite !app_String, Heq|by constructor].
Qed.

(** [parseFloat] of a string is [parseFloat] of its longest prefix that
    is a literal, and that is a number. *)
Lemma parseFloat_longest_literal p rest :
  longest_literal p rest →
  parseFloat (p +:+ rest) = parseFloat p ∧ Number.isNaN (parseFloat p) = false.
Proof.
  intros Hlong. destruct (scan_literal_longest p rest Hlong) as (v & Hs & Hp & Hv).
  destruct Hlong as [Hlit _]. unfold parseFloat.
  pose proof (trimStart_literal p "" Hlit) as Hp0. rewrite app_empty_r in Hp0.
  by rewrite (trimStart_literal p rest Hlit), Hp0, Hs, Hp.
Qed.

(** The value of a literal without sign and exponent: its significand
    scaled by its fraction digits, rounded; and its opposite. *)
Lemma parseFloat_mantissa m :
  Mantissa m →
  parseFloat m
  = Number.of_decimal false (significand m) (- Z.of_nat (fraction_digits m))
  ∧ parseFloat (String "-" m)
    = Number.of_decimal true (significand m) (- Z.of_nat (fraction_digits m)).
Proof.
  intros Hm. assert (StrUnsignedDecimalLiteral m) as Hu by by constructor.
  pose proof (scan_mantissa m false "" Hm I (λ _, I)) as Hpos.
  pose proof (scan_mantissa m true "" Hm I (λ _, I)) as Hneg.
  rewrite app_empty_r in Hpos, Hneg. simpl in Hpos, Hneg.
  pose proof (trimStart_literal m "" (SDL_unsigned m Hu)) as Ht.
  pose proof (take_sign_unsigned m "" Hu) as Hs.
  rewrite app_empty_r in Ht, Hs.
  unfold parseFloat, Scan.literal. split.
  - by rewrite Ht, Hs, Hpos.
  - simpl. by rewrite Hneg.
Qed.

(** A literal is scanned to its end. *)
Lemma literal_scans_fully q :
  StrDecimalLiteral q → ∃ v, Scan.literal q = Some (v, "").
Proof.
  intros Hq. destruct (scan_literal_longest q "") as (v & _ & Hv & _); [|eauto].
  split; [done|]. intros q' r Heq _. rewrite app_empty_r in Heq.
  rewrite Heq, length_app. lia.
Qed.

(** C10: when the stripped price of a row with a name, whose price
    cell is a string (the price column is not read from the prototype),
    starts with a numeric literal that no longer prefix extends,
    whatever characters follow it, the row is accepted with no row error
    and its price is the value of that literal, which for digits with at
    most one dot is the number of those digits scaled by the count of
    digits after the dot; so [19.99.50] gives 19.99, the binary64 number
    nearest to 1999/100, and [1-2] gives 1. *)
Theorem C10_numeric_prefix_parsed fm acc row index p rest :
  named fm row →
  ¬ inherits row (FieldMapping.currentPrice fm) →
  price_string fm row = p +:+ rest →
  longest_literal p rest →
  normalize_row fm acc row index
  = normal {| validProducts := validProducts acc ++ [product_of fm row];
              errors := errors acc |}
  ∧ CsvProduct.currentPrice (product_of fm row) = parseFloat p
  ∧ Number.isNaN (parseFloat p) = false
  ∧ (Mantissa p →
     parseFloat p
     = Number.of_decimal false (significand p) (- Z.of_nat (fraction_digits p)))
  ∧ parseFloat "19.99.50" = parseFloat "19.99"
  ∧ parseFloat "19.99" = Number.of_decimal false 1999 (-2)
  ∧ parseFloat "1-2" = parseFloat "1"
  ∧ parseFloat "1" = Number.of_decimal false 1 0
  ∧ parseFloat "19.99.50" = S754_finite false 5626684784446013 (-48)
  ∧ (Z.abs (5626684784446013 * 100 - 1999 * 2 ^ 48) * 2 ≤ 100)%Z
  ∧ parseFloat "1-2" = S754_finite false (2 ^ 52) (-52)
  ∧ (let st := uploaded ("productName,currentPrice" +:+ nl +:+ "Widget,19.99.50"
                          +:+ nl +:+ "Gadget,1-2") (self_mapping []) in
     ∃ result, normalize (fieldMapping st) (csvData st) = normal result
       ∧ CsvProduct.currentPrice <$> validProducts result
         = [parseFloat "19.99"; parseFloat "1"]
       ∧ errors result = []).
Proof.
  intros Hname Hcell Hprice Hlong.
  destruct (parseFloat_longest_literal p rest Hlong) as [Heq Hnan].
  assert (price_string fm row ≠ "") as Hne.
  { rewrite Hprice. destruct Hlong as [Hlit _].
    destruct Hlit as [u (c & u' & -> & _)%unsigned_head|u _|u _];
      by rewrite app_String. }
  split; [|split; [|split; [done|split; [|]]]].
  - apply normalize_row_valid; [done..|]. by rewrite Hprice, Heq.
  - simpl. by rewrite Hprice.
  - intros Hm. apply parseFloat_mantissa, Hm.
  - do 7 (split; [by vm_compute|]).
    eexists. split; [by vm_compute|]. by vm_compute.
Qed.

Lemma C10_numeric_prefix_parsed_witness :
  let row : gmap string string :=
    {[ "productName" := "Gadget"; "currentPrice" := "$1-2" ]} in
  normalize_row (self_mapping []) {| validProducts := []; errors := [] |} row 0
  = normal {| validProducts := [product_of (self_mapping []) row]; errors := [] |}
  ∧ CsvProduct.currentPrice (product_of (self_mapping []) row) = parseFloat "1".
Proof.
  intros row.
  destruct (C10_numeric_prefix_parsed (self_mapping [])
              {| validProducts := []; errors := [] |} row 0 "1" "-2")
    as (Hrow & Hprice & _).
  - apply (bool_decide_unpack (named _ _)). by vm_compute.
  - apply (bool_decide_eq_false_1 (inherits _ _)). by vm_compute.
  - by vm_compute.
  - split.
    + apply SDL_unsigned, SUDL_mantissa, M_int. split; [done|].
      apply digits_cons. split; [done|apply digits_nil].
    + intros q r Heq Hq. destruct q as [|a [|b q]]; simpl; [lia..|].
      rewrite !app_String in Heq. injection Heq as <- <- _.
      apply literal_scans_fully in Hq as [v Hv]. by vm_compute in Hv.
  - split; [exact Hrow|exact Hprice].
Defined.
End scanner.

(** ** Further properties of the parser *)

Section parser_more.
Implicit Types (s t f r : string) (c : ascii).

Lemma to_crlf_head_not_LF s c t : to_crlf s = String c t → c ≠ Char.LF.
Proof.
  destruct s as [|d s]; simpl; [done|].
  destruct (Ascii.eqb_spec d Char.LF) as [->|Hd]; intros [= <- _]; done.
Qed.

(** Turning the line feeds into CRLF and normalising gives the text
    back. *)
Lemma replace_crlf_to_crlf s : Str.replace_crlf (to_crlf s) = s.
Proof.
  induction s as [|c s IH]; [done|]. simpl.
  destruct (Ascii.eqb_spec c Char.LF) as [->|Hc].
  - simpl. by rewrite IH.
  - simpl. destruct (to_crlf s) as [|d t] eqn:Ht.
    + f_equal. by destruct s as [|e s]; [|simpl in Ht; destruct (Ascii.eqb e Char.LF)].
    + assert (d ≠ Char.LF) as Hd by by eapply to_crlf_head_not_LF.
      destruct (Ascii.eqb_spec d Char.LF) as [|_]; [done|].
      rewrite andb_false_r. by rewrite IH.
Qed.

Lemma trimEnd_cons c s t :
  Str.trimEnd s = Str.trimEnd t → Str.trimEnd (String c s) = Str.trimEnd (String c t).
Proof. simpl. by intros ->. Qed.

Lemma trimStart_non_white c s :
  Char.is_white_space c = false → Str.trimStart (String c s) = String c s.
Proof. simpl. by intros ->. Qed.

Lemma trimEnd_head c s :
  Char.is_white_space c = false → ∃ t, Str.trimEnd (String c s) = String c t.
Proof. simpl. intros ->. destruct (Str.trimEnd s); eauto. Qed.

(** Trimming the two ends commutes. *)
Lemma trim_commute s : Str.trim s = Str.trimStart (Str.trimEnd s).
Proof.
  unfold Str.trim. induction s as [|c s IH]; [done|].
  destruct (Char.is_white_space c) eqn:Hc.
  - simpl. rewrite Hc. destruct (Str.trimEnd s) as [|d t] eqn:Ht.
    + apply trimEnd_empty_iff in Ht.
      by rewrite (trimStart_all_white_space _ Ht).
    + rewrite IH. simpl. by rewrite Hc.
  - rewrite trimStart_non_white by done.
    destruct (trimEnd_head c s Hc) as [t ->]. by rewrite trimStart_non_white.
Qed.

Lemma split_LF_cons c s :
  Str.split Char.LF (String c s)
  = if Ascii.eqb c Char.LF then "" :: Str.split Char.LF s
    else match Str.split Char.LF s with
         | l :: ls => String c l :: ls
         | [] => [String c ""]
         end.
Proof. done. Qed.

(** After the trim of the line ends the CRLF normalisation makes no
    difference. *)
Lemma split_replace_crlf_trimEnd n s :
  String.length s ≤ n →
  Str.trimEnd <$> Str.split Char.LF (Str.replace_crlf s)
  = Str.trimEnd <$> Str.split Char.LF s.
Proof.
  revert s. induction n as [|n IH]; intros s Hn.
  { destruct s; [done|cbn [String.length] in Hn; lia]. }
  destruct s as [|c [|d s]]; [done..|].
  cbn [String.length] in Hn.
  assert (String.length s ≤ n) as Hs by lia.
  assert (String.length (String d s) ≤ n) as Hds by (cbn [String.length]; lia).
  change (Str.replace_crlf (String c (String d s)))
    with (if Ascii.eqb c Char.CR && Ascii.eqb d Char.LF
          then String Char.LF (Str.replace_crlf s)
          else String c (Str.replace_crlf (String d s))).
  destruct (Ascii.eqb_spec c Char.CR) as [->|Hc];
    [destruct (Ascii.eqb_spec d Char.LF) as [->|Hd]|]; simpl andb; cbv iota.
  - rewrite !split_LF_cons. simpl Ascii.eqb. cbv iota.
    rewrite !fmap_cons, (IH s Hs). done.
  - rewrite (split_LF_cons Char.CR), (split_LF_cons Char.CR (String d s)).
    simpl Ascii.eqb. cbv iota. specialize (IH _ Hds).
    pose proof (split_where_nonempty (λ e _, Ascii.eqb e Char.LF)
                  (Str.replace_crlf (String d s))) as Hne1.
    pose proof (split_where_nonempty (λ e _, Ascii.eqb e Char.LF) (String d s)) as Hne2.
    unfold Str.split in *.
    destruct (Str.split_where _ (Str.replace_crlf (String d s))) as [|l ls]; [done|].
    destruct (Str.split_where _ (String d s)) as [|l' ls']; [done|].
    rewrite !fmap_cons in *. injection IH as Hl Hls.
    by rewrite (trimEnd_cons _ _ _ Hl), Hls.
  - rewrite (split_LF_cons c), (split_LF_cons c (String d s)).
    specialize (IH _ Hds).
    destruct (Ascii.eqb c Char.LF); [by rewrite !fmap_cons, IH|].
    pose proof (split_where_nonempty (λ e _, Ascii.eqb e Char.LF)
                  (Str.replace_crlf (String d s))) as Hne1.
    pose proof (split_where_nonempty (λ e _, Ascii.eqb e Char.LF) (String d s)) as Hne2.
    unfold Str.split in *.
    destruct (Str.split_where _ (Str.replace_crlf (String d s))) as [|l ls]; [done|].
    destruct (Str.split_where _ (String d s)) as [|l' ls']; [done|].
    rewrite !fmap_cons in *. injection IH as Hl Hls.
    by rewrite (trimEnd_cons _ _ _ Hl), Hls.
Qed.

Lemma csv_lines_without_normalisation text :
  csv_lines text = filter (λ row, row ≠ "") (Str.trim <$> Str.split Char.LF text).
Proof.
  unfold csv_lines. f_equal.
  pose proof (split_replace_crlf_trimEnd _ text (le_n _)) as H.
  assert (∀ l : list string,
    Str.trim <$> l = Str.trimStart <$> (Str.trimEnd <$> l)) as Htrim.
  { intros l. rewrite <- list_fmap_compose. apply list_fmap_ext.
    intros _ x _. apply trim_commute. }
  by rewrite !Htrim, H.
Qed.

(** X1: a text parses to the same result, table or error, when every
    line feed in it is written as CRLF. *)
Theorem parseCsv_crlf_same text : parseCsv (to_crlf text) = parseCsv text.
Proof.
  assert (csv_lines (to_crlf text) = csv_lines text) as Hlines.
  { unfold csv_lines at 1. rewrite replace_crlf_to_crlf.
    by rewrite csv_lines_without_normalisation. }
  unfold parseCsv. by rewrite Hlines.
Qed.
Lemma trimEnd_idemp s : Str.trimEnd (Str.trimEnd s) = Str.trimEnd s.
Proof.
  induction s as [|c s IH]; [done|]. simpl.
  destruct (Str.trimEnd s) as [|d t] eqn:Ht.
  - destruct (Char.is_white_space c) eqn:Hc; [done|]. simpl. by rewrite Hc.
  - change (Str.trimEnd (String c (String d t)))
      with (match Str.trimEnd (String d t) with
            | "" => if Char.is_white_space c then "" else String c ""
            | u => String c u
            end).
    by rewrite IH.
Qed.

Lemma trimStart_idemp s : Str.trimStart (Str.trimStart s) = Str.trimStart s.
Proof.
  induction s as [|c s IH]; [done|]. simpl.
  destruct (Char.is_white_space c) eqn:Hc; [done|]. simpl. by rewrite Hc.
Qed.

(** Trimming twice is trimming once. *)
Lemma trim_idemp s : Str.trim (Str.trim s) = Str.trim s.
Proof.
  unfold Str.trim at 1. rewrite (trim_commute s) at 1.
  rewrite trimStart_idemp, <- trim_commute. unfold Str.trim.
  apply trimEnd_idemp.
Qed.

(** X2: the headers of a parsed table carry no white space at either
    end, and its rows come from lines that are trimmed and not empty. *)
Theorem parseCsv_headers_trimmed text table :
  parseCsv text = Resolved table →
  Forall (λ header, Str.trim header = header) (headers table)
  ∧ Forall (λ line, Str.trim line = line ∧ line ≠ "") (csv_lines text)
  ∧ data table = row_object (headers table) <$> tl (csv_lines text).
Proof.
  unfold parseCsv. destruct (length (csv_lines text) <? 2); [done|].
  intros [= <-]. simpl. split; [|split; [|done]].
  - apply Forall_forall. intros h (x & -> & _)%list_elem_of_fmap.
    apply trim_idemp.
  - apply Forall_forall. unfold csv_lines.
    intros l [Hne (x & -> & _)%list_elem_of_fmap]%list_elem_of_filter.
    split; [apply trim_idemp|done].
Qed.

Lemma parseCsv_headers_trimmed_witness :
  Forall (λ header, Str.trim header = header) ["name"; "price"].
Proof.
  apply (parseCsv_headers_trimmed (" name , price " +:+ nl +:+ "Widget,5")
           {| headers := ["name"; "price"];
              data := [row_object ["name"; "price"] "Widget,5"] |}).
  by vm_compute.
Defined.

Lemma row_object_dom hs (row : string) :
  dom (row_object hs row) = list_to_set (filter (λ h, h ≠ "__proto__") hs).
Proof.
  apply set_eq. intros key.
  rewrite elem_of_dom, elem_of_list_to_set, list_elem_of_filter. split.
  - intros Hsome%row_object_is_Some_inv. tauto.
  - intros [Hne Hin]. by apply row_object_is_Some.
Qed.

(** X3: the keys of every row of a parsed table are exactly the headers
    other than [__proto__], for which the assignment stores nothing:
    values beyond the last header are dropped, however many the line
    holds, and no row ever has a key [__proto__]. *)
Theorem parseCsv_row_keys text table (row : gmap string string) :
  parseCsv text = Resolved table →
  row ∈ data table →
  dom row = list_to_set (filter (λ h, h ≠ "__proto__") (headers table))
  ∧ row !! "__proto__" = None
  ∧ Row.get row "__proto__" = inherited "__proto__".
Proof.
  unfold parseCsv. destruct (length (csv_lines text) <? 2); [done|].
  intros [= <-]. simpl. intros (line & -> & _)%list_elem_of_fmap.
  split; [apply row_object_dom|]. split; [apply row_object_proto|].
  unfold Row.get. by rewrite row_object_proto.
Qed.

Lemma parseCsv_row_keys_witness :
  dom (row_object ["a"; "__proto__"; "b"] "1,2,3,4") = list_to_set ["a"; "b"].
Proof.
  apply (parseCsv_row_keys ("a,__proto__,b" +:+ nl +:+ "1,2,3,4")
           {| headers := ["a"; "__proto__"; "b"];
              data := [row_object ["a"; "__proto__"; "b"] "1,2,3,4"] |}).
  - by vm_compute.
  - simpl. apply list_elem_of_here.
Defined.
End parser_more.

(** ** Writing a row with quoted fields and reading it back *)

Section quoted_fields.
Implicit Types (s f r : string) (c : ascii) (fields : list string).

Lemma cons_head_cons_head p q l :
  l ≠ [] → cons_head p (cons_head q l) = cons_head (p +:+ q) l.
Proof. destruct l as [|x xs]; [done|]. intros _. simpl. by rewrite app_String_assoc. Qed.

Lemma split_outside_quotes_from_nonempty inside s :
  split_outside_quotes_from inside s ≠ [].
Proof.
  revert inside. induction s as [|c s IH]; intros inside; simpl; [done|].
  destruct (Ascii.eqb c Char.comma && negb inside); [done|].
  by destruct (split_outside_quotes_from _ s).
Qed.

(** Inside a quoted field everything up to the closing quote stays in
    the field. *)
Lemma split_inside_quotes f r :
  Str.count Char.dquote f = 0 →
  split_outside_quotes_from true (f +:+ String Char.dquote r)
  = cons_head (f +:+ String Char.dquote "") (split_outside_quotes_from false r).
Proof.
  intros Hf. pose proof (split_outside_quotes_from_nonempty false r) as Hne.
  induction f as [|c f IH].
  - rewrite !app_empty_l. simpl.
    by destruct (split_outside_quotes_from false r).
  - simpl in Hf. destruct (Ascii.eqb_spec c Char.dquote) as [->|Hc]; [done|].
    rewrite !app_String.
    change (split_outside_quotes_from true (String c (f +:+ String Char.dquote r)))
      with (if Ascii.eqb c Char.comma && negb true
            then "" :: split_outside_quotes_from true (f +:+ String Char.dquote r)
            else match split_outside_quotes_from
                         (if Ascii.eqb c Char.dquote then negb true else true)
                         (f +:+ String Char.dquote r) with
                 | field :: l => String c field :: l
                 | [] => [String c ""]
                 end).
    rewrite andb_false_r.
    destruct (Ascii.eqb_spec c Char.dquote) as [|_]; [done|].
    rewrite (IH Hf).
    destruct (split_outside_quotes_from false r) as [|x xs]; [done|]. simpl.
    by rewrite app_String.
Qed.

Lemma split_quoted_field f r :
  Str.count Char.dquote f = 0 →
  split_outside_quotes (quoted f +:+ r)
  = cons_head (quoted f) (split_outside_quotes r).
Proof.
  intros Hf. unfold split_outside_quotes, quoted.
  rewrite app_String, app_String_assoc, app_String, app_empty_l.
  simpl. rewrite (split_inside_quotes f r Hf).
  pose proof (split_outside_quotes_from_nonempty false r) as Hne.
  destruct (split_outside_quotes_from false r) as [|x xs]; [done|]. simpl.
  by rewrite app_String.
Qed.

Lemma count_app c s r : Str.count c (s +:+ r) = Str.count c s + Str.count c r.
Proof.
  induction s as [|d s IH]; [done|]. rewrite app_String. simpl. rewrite IH. lia.
Qed.

Lemma count_quoted f :
  Str.count Char.dquote f = 0 → Str.count Char.dquote (quoted f) = 2.
Proof.
  intros Hf. unfold quoted. simpl. rewrite count_app, Hf. done.
Qed.

Lemma join_cons_cons sep x y l :
  Str.join sep (x :: y :: l) = x +:+ sep +:+ Str.join sep (y :: l).
Proof. done. Qed.

Lemma count_join_quoted fields :
  Forall (λ f, Str.count Char.dquote f = 0) fields →
  Nat.even (Str.count Char.dquote (Str.join "," (quoted <$> fields))) = true.
Proof.
  induction 1 as [|f fields Hf Hfs IH]; [done|].
  destruct fields as [|g fields].
  - change (Str.join "," (quoted <$> [f])) with (quoted f).
    by rewrite count_quoted.
  - change (Str.join "," (quoted <$> f :: g :: fields))
      with (quoted f +:+ "," +:+ Str.join "," (quoted <$> g :: fields)).
    rewrite !count_app, count_quoted by done.
    change (Str.count Char.dquote ",") with 0.
    by rewrite !Nat.even_add, IH.
Qed.

Lemma split_join_quoted fields :
  fields ≠ [] →
  Forall (λ f, Str.count Char.dquote f = 0) fields →
  split_outside_quotes (Str.join "," (quoted <$> fields)) = quoted <$> fields.
Proof.
  intros Hne Hall. induction Hall as [|f fields Hf Hfs IH]; [done|].
  destruct fields as [|g fields].
  - change (Str.join "," (quoted <$> [f])) with (quoted f).
    rewrite <- (app_empty_r (quoted f)) at 1.
    rewrite split_quoted_field by done. simpl. by rewrite app_empty_r.
  - change (Str.join "," (quoted <$> f :: g :: fields))
      with (quoted f +:+ "," +:+ Str.join "," (quoted <$> g :: fields)).
    rewrite split_quoted_field by done.
    change (split_outside_quotes ("," +:+ Str.join "," (quoted <$> g :: fields)))
      with ("" :: split_outside_quotes (Str.join "," (quoted <$> g :: fields))).
    rewrite IH by done. simpl. by rewrite app_empty_r.
Qed.

Lemma trimEnd_snoc s c :
  Char.is_white_space c = false →
  Str.trimEnd (s +:+ String c "") = s +:+ String c "".
Proof.
  intros Hc. induction s as [|d s IH].
  - rewrite app_empty_l. simpl. by rewrite Hc.
  - rewrite app_String. simpl. rewrite IH.
    by destruct s; rewrite ?app_empty_l, ?app_String.
Qed.

Lemma trim_quoted f : Str.trim (quoted f) = quoted f.
Proof.
  unfold Str.trim, quoted. rewrite trimStart_non_white by done.
  change (String Char.dquote (f +:+ String Char.dquote ""))
    with (String Char.dquote f +:+ String Char.dquote "").
  by apply trimEnd_snoc.
Qed.

(** X4: a line written by putting every field between double quotes and
    joining with commas is read back as exactly those fields, commas and
    white space inside them included, as long as no field holds a double
    quote. *)
Theorem row_values_quoted_round_trip fields :
  fields ≠ [] →
  Forall (λ f, Str.count Char.dquote f = 0) fields →
  row_values (Str.join "," (quoted <$> fields)) = fields.
Proof.
  intros Hne Hall. unfold row_values.
  rewrite split_regex_state_machine with (inside := false).
  - fold split_outside_quotes. rewrite split_join_quoted by done.
    rewrite <- list_fmap_compose. rewrite <- (list_fmap_id fields) at 2.
    apply list_fmap_ext. intros _ f _. simpl.
    by rewrite trim_quoted, strip_quotes_quoted.
  - by rewrite <- Nat.negb_even, count_join_quoted.
Qed.

Lemma row_values_quoted_round_trip_witness :
  row_values (Str.join "," (quoted <$> ["Pro Camera, with stand"; " 499.99 "; ""]))
  = ["Pro Camera, with stand"; " 499.99 "; ""].
Proof.
  apply row_values_quoted_round_trip; [done|].
  repeat (apply Forall_cons; split; [by vm_compute|]). apply Forall_nil_2.
Defined.
End quoted_fields.

(** ** The normaliser as a filter and a map *)

Section normalizer_more.
Context (fm : FieldMapping.t).
Implicit Types (acc : Acc) (row : gmap string string) (rows : list (gmap string string)).

(** X5: when the reducer ends normally, the products handed on are the
    products of the accepted rows, in the order of the rows; and it
    ends normally exactly when no row throws. *)
Theorem normalize_products_in_row_order rows :
  (∀ acc, normalize fm rows = normal acc →
          validProducts acc = product_of fm <$> filter (accepted fm) rows)
  ∧ ((∃ acc, normalize fm rows = normal acc)
     ↔ Forall (λ row, row_throws fm row = None) rows).
Proof.
  split; [by intros acc (_ & ? & _)%normalize_normal|]. split.
  - by intros [acc (? & _)%normalize_normal].
  - intros Hall. unfold normalize, reduce_throwing.
    rewrite reduce_from_normalize by done. eauto.
Qed.

(** X6: when the reducer ends normally, the errors are those of the
    rejected rows, in the order of the rows, each naming the position of
    its row plus two: the number of its line in a file without blank
    lines. *)
Theorem normalize_errors_in_row_order rows :
  ∀ acc, normalize fm rows = normal acc →
    errors acc = omap id (imap (row_error fm) rows)
    ∧ ∀ e, e ∈ errors acc →
        ∃ index row, rows !! index = Some row ∧ named fm row
          ∧ ¬ inherits row (FieldMapping.currentPrice fm)
          ∧ ((price_string fm row = "" ∧ e = price_missing (index + 2))
             ∨ (Number.isNaN (parseFloat (price_string fm row)) = true
                ∧ e = price_invalid (index + 2)
                        (Row.get row (FieldMapping.currentPrice fm)))).
Proof.
  intros acc (_ & _ & Herr)%normalize_normal.
  split; [done|]. rewrite Herr. intros e (o & Ho & Hoe)%list_elem_of_omap.
  simpl in Hoe. subst o.
  apply list_elem_of_lookup in Ho as [index Ho].
  rewrite list_lookup_imap in Ho.
  destruct (rows !! index) as [row|] eqn:Hrow; [|done].
  simpl in Ho. injection Ho as Ho. exists index, row. split; [done|].
  unfold row_error in Ho.
  destruct (decide (_ ∧ _)) as [[Hname Hno]|]; [|done].
  split; [done|]. split; [done|].
  destruct (decide (price_string fm row = "")) as [Hp|Hp];
    [left; split; congruence|].
  destruct (Number.isNaN _) eqn:Hnan; [|done]. right. split; congruence.
Qed.

Lemma row_accounts row index :
  row_throws fm row = None →
  length (if decide (accepted fm row) then [product_of fm row] else [])
  + length (option_list (row_error fm index row))
  = if decide (named fm row) then 1 else 0.
Proof.
  intros [_ Hno]%row_throws_None. unfold row_error.
  destruct (decide (named fm row)) as [Hn|Hn].
  - specialize (Hno Hn).
    rewrite (decide_True (P := named fm row ∧ ¬ inherits row _)) by done.
    destruct (decide (price_string fm row = "")) as [Hp|Hp].
    { by rewrite decide_False by (by intros (_ & _ & ? & _)). }
    destruct (Number.isNaN _) eqn:Hnan.
    + by rewrite decide_False by (intros (_ & _ & _ & ?); congruence).
    + by rewrite decide_True.
  - rewrite decide_False by (by intros [? _]).
    by rewrite decide_False by (by intros [? _]).
Qed.

Lemma rows_account rows index :
  Forall (λ row, row_throws fm row = None) rows →
  length (filter (accepted fm) rows)
  + length (omap id (imap (λ i, row_error fm (index + i)) rows))
  = length (filter (named fm) rows).
Proof.
  intros Hall. revert index. induction Hall as [|row rows Hrow _ IH]; intros index.
  { done. }
  rewrite !filter_cons. cbn [imap omap list_omap]. rewrite Nat.add_0_r.
  assert (imap ((λ i, row_error fm (index + i)) ∘ S) rows
          = imap (λ i, row_error fm (S index + i)) rows) as ->.
  { apply imap_ext. intros i x _. simpl. f_equal. lia. }
  pose proof (row_accounts row index Hrow) as Hacc.
  specialize (IH (S index)).
  destruct (decide (accepted fm row)), (decide (named fm row)),
    (row_error fm index row); simpl in *; lia.
Qed.

(** X7: when the reducer ends normally, every row with a name gives
    exactly one product or exactly one error, so that products and
    errors together are as many as the rows with a name; rows whose name
    is blank give neither, and a table of such rows gives nothing. *)
Theorem normalize_accounts_for_named_rows rows :
  (∀ acc, normalize fm rows = normal acc →
     length (validProducts acc) + length (errors acc)
     = length (filter (named fm) rows))
  ∧ (Forall (blank_name fm) rows →
     normalize fm rows = normal {| validProducts := []; errors := [] |})
  ∧ (∀ acc row index, blank_name fm row → normalize_row fm acc row index = normal acc).
Proof.
  split; [|split].
  - intros acc (Hall & -> & ->)%normalize_normal.
    rewrite length_fmap. by apply (rows_account rows 0).
  - intros Hblank. unfold normalize, reduce_throwing.
    generalize 0 as index. induction Hblank as [|row rows Hrow _ IH]; intros index.
    { done. }
    simpl. rewrite normalize_row_skipped by done. simpl. apply IH.
  - intros acc row index. apply normalize_row_skipped.
Qed.

(** X22: the reducer throws exactly when some row throws, and then the
    error is that of the first such row: a call of [trim] on a name
    column read from the prototype, or of [replace] on a price column
    read from the prototype in a row with a name. *)
Theorem normalize_throws rows error :
  (normalize fm rows = throw error
   ↔ ∃ before row after,
       rows = before ++ row :: after
       ∧ Forall (λ row, row_throws fm row = None) before
       ∧ row_throws fm row = Some error)
  ∧ (∀ row, row_throws fm row = Some error →
       (inherits row (FieldMapping.productName fm)
        ∧ error = not_a_function "productName.trim")
       ∨ (named fm row ∧ inherits row (FieldMapping.currentPrice fm)
          ∧ error = not_a_function "(row[fieldMapping.currentPrice] || '').replace")).
Proof.
  split.
  - split.
    + intros Hthrow.
      destruct (first_throw fm rows)
        as [Hall|(before & row & after & e & -> & Hbefore & Hrow)].
      * unfold normalize, reduce_throwing in Hthrow.
        by rewrite reduce_from_normalize in Hthrow.
      * exists before, row, after. split; [done|]. split; [done|].
        unfold normalize, reduce_throwing in Hthrow.
        rewrite (reduce_from_normalize_throw _ _ _ _ e) in Hthrow by done.
        congruence.
    + intros (before & row & after & -> & Hbefore & Hrow).
      by apply reduce_from_normalize_throw.
  - intros row. unfold row_throws.
    destruct (decide (inherits row _)) as [Hin|_]; [intros [= <-]; by left|].
    destruct (decide (_ ∧ _)) as [[Hn Hp]|_]; [|done].
    intros [= <-]. right. done.
Qed.
End normalizer_more.

Lemma normalize_errors_in_row_order_witness :
  let rows : list (gmap string string) :=
    [ {[ "productName" := "Widget"; "currentPrice" := "N/A" ]};
      {[ "productName" := "Gadget"; "currentPrice" := "7" ]} ] in
  errors {| validProducts := product_of (self_mapping []) <$> drop 1 rows;
            errors := ["Row 2: Price is missing."] |}
  = omap id (imap (row_error (self_mapping [])) rows).
Proof.
  intros rows.
  apply (normalize_errors_in_row_order (self_mapping []) rows). by vm_compute.
Defined.

(** ** The column toggle and the competitor list *)

Section selection.
Implicit Types (fm : FieldMapping.t) (header h : string) (st : State).

(** X8: toggling a header flips whether that header is selected and
    changes nothing else: no other header enters or leaves the
    selection, and the three single-column fields stay as they are. *)
Theorem toggle_flips_membership header fm h :
  (h ∈ FieldMapping.competitorUrls (handleCompetitorHeaderToggle header fm)
   ↔ (h = header ∧ header ∉ FieldMapping.competitorUrls fm)
     ∨ (h ≠ header ∧ h ∈ FieldMapping.competitorUrls fm))
  ∧ FieldMapping.productName (handleCompetitorHeaderToggle header fm)
    = FieldMapping.productName fm
  ∧ FieldMapping.currentPrice (handleCompetitorHeaderToggle header fm)
    = FieldMapping.currentPrice fm
  ∧ FieldMapping.userProductUrl (handleCompetitorHeaderToggle header fm)
    = FieldMapping.userProductUrl fm.
Proof.
  split; [|done].
  destruct (decide (header ∈ FieldMapping.competitorUrls fm)) as [Hin|Hin].
  - rewrite toggle_present by done. rewrite list_elem_of_filter. tauto.
  - rewrite toggle_absent by done. rewrite elem_of_app, list_elem_of_singleton.
    split; [|tauto].
    intros [Hh| ->]; [right|left]; split; try done. by intros ->.
Qed.

(** X9: a selection without repeated headers stays without repeated
    headers under toggling, so the selection built from the empty one
    never names a column twice. *)
Theorem toggle_preserves_NoDup header fm :
  NoDup (FieldMapping.competitorUrls fm) →
  NoDup (FieldMapping.competitorUrls (handleCompetitorHeaderToggle header fm)).
Proof.
  intros Hnd. destruct (decide (header ∈ FieldMapping.competitorUrls fm)) as [Hin|Hin].
  - rewrite toggle_present by done. by apply NoDup_filter.
  - rewrite toggle_absent by done. apply NoDup_app. split; [done|].
    split; [|apply NoDup_singleton].
    intros x Hx ->%list_elem_of_singleton. done.
Qed.

Lemma toggle_preserves_NoDup_witness :
  NoDup (FieldMapping.competitorUrls
           (handleCompetitorHeaderToggle "c1"
              (handleCompetitorHeaderToggle "c2" FieldMapping.empty))).
Proof.
  apply toggle_preserves_NoDup, toggle_preserves_NoDup. apply NoDup_nil_2.
Defined.

Lemma filter_ne_not_elem (l : list string) h : h ∉ l → filter (λ x, x ≠ h) l = l.
Proof.
  induction l as [|x l IH]; [done|]. intros [Hx Hl]%not_elem_of_cons.
  rewrite filter_cons_True by done. by rewrite IH.
Qed.

(** X10: switching a column on and off again restores the mapping;
    switching a selected column off and on again moves it to the end of
    the selection. *)
Theorem toggle_twice header fm :
  (header ∉ FieldMapping.competitorUrls fm →
   handleCompetitorHeaderToggle header (handleCompetitorHeaderToggle header fm) = fm)
  ∧ (header ∈ FieldMapping.competitorUrls fm →
     FieldMapping.competitorUrls
       (handleCompetitorHeaderToggle header (handleCompetitorHeaderToggle header fm))
     = filter (λ h, h ≠ header) (FieldMapping.competitorUrls fm) ++ [header]).
Proof.
  split; intros Hin.
  - assert (header ∈ FieldMapping.competitorUrls (handleCompetitorHeaderToggle header fm))
      as Hin'.
    { rewrite toggle_absent by done. apply elem_of_app. right.
      by apply list_elem_of_singleton. }
    pose proof (toggle_present header _ Hin') as Hsel.
    rewrite (toggle_absent header fm Hin) in Hsel.
    rewrite filter_app, filter_ne_not_elem in Hsel by done.
    rewrite filter_cons_False, filter_nil, app_nil_r in Hsel by (by intros ?).
    destruct fm as [n p u sel].
    unfold handleCompetitorHeaderToggle at 1. f_equal. exact Hsel.
  - rewrite toggle_absent; [by rewrite toggle_present|].
    rewrite toggle_present by done. rewrite list_elem_of_filter. by intros [? _].
Qed.

Lemma filter_index_from_above {A} (l : list A) j k :
  j < k → filter_index_from (λ _ i, negb (i =? j)) k l = l.
Proof.
  revert k. induction l as [|x l IH]; intros k Hk; simpl; [done|].
  rewrite (proj2 (Nat.eqb_neq k j)) by lia. simpl. rewrite IH by lia. done.
Qed.

Lemma filter_index_from_delete {A} (l : list A) k index :
  filter_index_from (λ _ i, negb (i =? k + index)) k l = delete index l.
Proof.
  revert k index. induction l as [|x l IH]; intros k index; simpl; [done|].
  destruct index as [|index].
  - rewrite Nat.add_0_r, Nat.eqb_refl. simpl. apply filter_index_from_above. lia.
  - rewrite (proj2 (Nat.eqb_neq k (k + S index))) by lia. simpl.
    f_equal. replace (k + S index) with (S k + index) by lia. apply IH.
Qed.

Lemma filter_index_delete {A} (l : list A) index :
  filter_index (λ _ i, negb (i =? index)) l = delete index l.
Proof. apply (filter_index_from_delete l 0 index). Qed.

Lemma delete_past_end {A} (l : list A) index : length l ≤ index → delete index l = l.
Proof.
  revert index. induction l as [|x l IH]; intros index Hlen; [by destruct index|].
  destruct index as [|index]; simpl in *; [lia|]. f_equal. apply IH. lia.
Qed.

Lemma delete_appended {A} (l : list A) x : delete (length l) (l ++ [x]) = l.
Proof. induction l as [|y l IH]; simpl; [done|]. by rewrite IH. Qed.

(** X11: removing a competitor deletes exactly the entry at that
    position and keeps the others in order; a position past the end
    removes nothing; adding a competitor appends one empty entry, and
    removing it again restores the list.  Neither touches the rest of
    the state. *)
Theorem removeCompetitor_deletes index st :
  competitorUrls (removeCompetitor index st) = delete index (competitorUrls st)
  ∧ (length (competitorUrls st) ≤ index → removeCompetitor index st = st)
  ∧ removeCompetitor (length (competitorUrls st)) (addCompetitor st) = st
  ∧ competitorUrls (addCompetitor st) = competitorUrls st ++ [""]
  ∧ removeCompetitor index st = setCompetitorUrls (delete index (competitorUrls st)) st.
Proof.
  split; [|split; [|split; [|split]]].
  - simpl. apply filter_index_delete.
  - intros Hlen. unfold removeCompetitor.
    rewrite filter_index_delete, delete_past_end by done. by destruct st.
  - unfold removeCompetitor, addCompetitor. simpl.
    rewrite filter_index_delete, delete_appended. by destruct st.
  - done.
  - unfold removeCompetitor. by rewrite filter_index_delete.
Qed.
End selection.

(** ** Further properties of the handlers *)

Section handlers_more.
Implicit Types (st : State) (file : option File) (isLoading : bool)
  (message : TypeError → string).

Lemma setCsvError_same st : setCsvError (csvError st) st = st.
Proof. by destruct st. Qed.

(** X12: submitting changes nothing of the state but the CSV error:
    the mode, the URLs, the file, the table and the mapping are left as
    they were; while an analysis is loading it changes nothing at all and
    hands nothing to [onAnalyze]. *)
Theorem handleSubmit_frame message isLoading st :
  (∃ e, (handleSubmit message isLoading st).1 = setCsvError e st)
  ∧ handleSubmit message true st = (st, None).
Proof.
  split; [|done]. unfold handleSubmit.
  destruct isLoading; [exists (csvError st); by rewrite setCsvError_same|].
  destruct (inputMode st).
  - exists (csvError st). rewrite setCsvError_same. by destruct (decide _).
  - simpl. destruct (csvFile st); [|by eexists].
    destruct (decide (_ ∨ _)); [by eexists|].
    destruct (normalize _ _); [|by eexists].
    destruct (decide (length _ = 0)); [by eexists|].
    destruct (decide (0 < _)); by eexists.
Qed.

(** X13: on the URL tab a request goes out exactly when the product URL
    is not blank and some competitor URL is not blank; it carries the
    product URL as typed and the competitor URLs that are not blank, in
    their order; the state is left as it was. *)
Theorem handleSubmit_url message st :
  inputMode st = url →
  (handleSubmit message false st).1 = st
  ∧ (is_Some (handleSubmit message false st).2
     ↔ ¬ Str.all_white_space (userProductUrl st)
       ∧ Exists (λ u, ¬ Str.all_white_space u) (competitorUrls st))
  ∧ ∀ input, (handleSubmit message false st).2 = Some input →
      input = UrlInput (userProductUrl st)
                (filter (λ u, ¬ Str.all_white_space u) (competitorUrls st)).
Proof.
  intros Hmode. unfold handleSubmit. rewrite Hmode.
  assert (0 < length (filter (λ u, ¬ Str.all_white_space u) (competitorUrls st))
          ↔ Exists (λ u, ¬ Str.all_white_space u) (competitorUrls st)) as Hex.
  { rewrite Exists_exists. split.
    - destruct (filter _ _) as [|u l] eqn:Hf; simpl; [intros ?; lia|]. intros _.
      assert (u ∈ filter (λ u, ¬ Str.all_white_space u) (competitorUrls st)) as Hu
        by (rewrite Hf; apply list_elem_of_here).
      apply list_elem_of_filter in Hu as [? ?]. eauto.
    - intros (u & Hu & Hnb).
      assert (u ∈ filter (λ u, ¬ Str.all_white_space u) (competitorUrls st)) as Hin
        by by apply list_elem_of_filter.
      destruct (filter _ _); [by apply elem_of_nil in Hin|simpl; lia]. }
  assert (filter (λ u, Str.trim u ≠ "") (competitorUrls st)
          = filter (λ u, ¬ Str.all_white_space u) (competitorUrls st)) as Hfilter.
  { apply list_filter_iff. intros u. by rewrite trim_empty_iff. }
  rewrite Hfilter.
  destruct (decide (Str.trim (userProductUrl st) ≠ "" ∧ _)) as [[Hu Hc]|Hno]; simpl.
  - split; [done|]. split; [|by intros input [= <-]].
    split; [|by eauto]. intros _. rewrite <- trim_empty_iff, <- Hex. done.
  - split; [done|]. split; [|done]. split; [by intros [? ?]|].
    intros [Hu Hc]. exfalso. apply Hno. rewrite trim_empty_iff, Hex. done.
Qed.

Lemma handleSubmit_url_witness :
  (handleSubmit v8_message false initial_state).2
  = Some (UrlInput (userProductUrl initial_state) (competitorUrls initial_state)).
Proof.
  destruct (handleSubmit_url v8_message initial_state eq_refl) as (_ & Hsome & Hinput).
  destruct (handleSubmit v8_message false initial_state).2 as [input|] eqn:Hres.
  - rewrite (Hinput input eq_refl). by vm_compute.
  - exfalso. assert (is_Some (@None AnalysisInput)) as [? ?]; [|done].
    apply Hsome. split.
    + apply (bool_decide_eq_false_1 (Str.all_white_space _)). by vm_compute.
    + apply Exists_cons_hd.
      apply (bool_decide_eq_false_1 (Str.all_white_space _)). by vm_compute.
Defined.

(** X14: when the reducer ends normally with at least one accepted row,
    the batch goes out with exactly the products of the accepted rows;
    the CSV error is cleared when no row was rejected, and otherwise is
    a warning that gives the number of rejected rows and holds the
    message of each. *)
Theorem handleSubmit_partial_batch message st f acc :
  inputMode st = csv → csvFile st = Some f →
  FieldMapping.productName (fieldMapping st) ≠ "" →
  FieldMapping.currentPrice (fieldMapping st) ≠ "" →
  normalize (fieldMapping st) (csvData st) = normal acc →
  filter (accepted (fieldMapping st)) (csvData st) ≠ [] →
  let errs := errors acc in
  (handleSubmit message false st).2
  = Some (CsvInput (product_of (fieldMapping st)
                      <$> filter (accepted (fieldMapping st)) (csvData st)))
  ∧ (errs = [] → csvError (handleSubmit message false st).1 = None)
  ∧ (errs ≠ [] →
     ∃ warning, csvError (handleSubmit message false st).1 = Some warning
       ∧ Str.occurs_in ("Skipped " +:+ pretty (length errs) +:+ " invalid rows") warning
       ∧ ∀ e, e ∈ errs → Str.occurs_in e warning).
Proof.
  intros Hmode Hfile Hname Hprice Hrun Hsome errs.
  rewrite (handleSubmit_csv_ready message st f Hmode Hfile Hname Hprice), Hrun.
  fold errs.
  destruct (normalize_normal _ _ _ Hrun) as (_ & -> & _).
  rewrite decide_False
    by (rewrite length_fmap; destruct (filter _ _); [done|simpl; lia]).
  simpl. split; [done|]. split.
  - intros ->. done.
  - intros Hne. rewrite decide_True by (destruct errs; [done|simpl; lia]).
    exists (skipped_warning errs). split; [done|]. unfold skipped_warning. split.
    + exists "Warning: ", (". Reasons: " +:+ Str.join " " errs).
      by rewrite !app_String_assoc.
    + intros e He. do 3 apply occurs_in_app_r. by apply join_occurs.
Qed.

Lemma handleSubmit_partial_batch_witness :
  let st := uploaded ("productName,currentPrice" +:+ nl +:+ "Widget,N/A" +:+ nl
                       +:+ "Gadget,7") (self_mapping []) in
  (handleSubmit v8_message false st).2
  = Some (CsvInput (product_of (fieldMapping st)
                      <$> filter (accepted (fieldMapping st)) (csvData st))).
Proof.
  intros st.
  refine (proj1 (handleSubmit_partial_batch v8_message st
            {| name := "products.csv"; type := "text/csv";
               text := Some ("productName,currentPrice" +:+ nl +:+ "Widget,N/A" +:+ nl
                        +:+ "Gadget,7") |}
            {| validProducts :=
                 product_of (fieldMapping st)
                   <$> filter (accepted (fieldMapping st)) (csvData st);
               errors := ["Row 2: Price is missing."] |}
            _ _ _ _ _ _)); by vm_compute.
Defined.

(** X15: choosing a file, or clearing the choice, empties the mapping;
    so on the CSV tab a submission made right after never reaches
    [onAnalyze]: with no file it asks for one, with a file, parsed or
    not, it asks for the two required columns. *)
Theorem handleSubmit_after_file_change message file st isLoading :
  inputMode st = csv →
  fieldMapping (handleFileChange file st) = FieldMapping.empty
  ∧ csvFile (handleFileChange file st) = file
  ∧ (handleSubmit message isLoading (handleFileChange file st)).2 = None
  ∧ csvError (handleSubmit message false (handleFileChange file st)).1
    = Some (match file with
            | Some _ => mapping_error
            | None => select_file_error
            end).
Proof.
  intros Hmode.
  assert (fieldMapping (handleFileChange file st) = FieldMapping.empty
          ∧ csvFile (handleFileChange file st) = file
          ∧ inputMode (handleFileChange file st) = csv) as (Hmap & Hfile & Hmode').
  { unfold handleFileChange. destruct file as [f|]; [|by rewrite Hmode].
    destruct (negb _ && negb _); [by rewrite Hmode|].
    destruct (parseCsvFile f); by rewrite Hmode. }
  split; [done|]. split; [done|].
  unfold handleSubmit. rewrite Hmode'. simpl. rewrite Hfile, Hmap.
  destruct file; destruct isLoading; simpl; done.
Qed.

Lemma handleSubmit_after_file_change_witness :
  (handleSubmit v8_message false
     (handleFileChange
        (Some {| name := "products.csv"; type := "text/csv";
                 text := Some ("productName,currentPrice" +:+ nl +:+ "Widget,5") |})
        (setInputMode csv initial_state))).2 = None.
Proof.
  apply (handleSubmit_after_file_change v8_message
           (Some {| name := "products.csv"; type := "text/csv";
                    text := Some ("productName,currentPrice" +:+ nl +:+ "Widget,5") |})
           (setInputMode csv initial_state) false).
  done.
Defined.

(** X16: what a file change leaves, case by case.  With no file the
    table is empty and there is no error.  A file whose type does not
    hold [csv] and whose name does not end in [.csv] leaves the table
    empty and the type error.  For a file of accepted type: a read that
    fails leaves the table empty and the read error; a text that the
    parser rejects leaves the table empty and the format error; a text
    that parses is loaded, headers and rows, with at least one header
    and no error.  In every case the file is recorded and the mapping
    is emptied. *)
Theorem handleFileChange_outcome file st :
  let st' := handleFileChange file st in
  let empty_with error :=
    csvHeaders st' = [] ∧ csvData st' = [] ∧ csvError st' = error in
  (file = None → empty_with None)
  ∧ (∀ f, file = Some f →
       let accepted_type :=
         Str.includes "csv" (type f) = true ∨ Str.endsWith ".csv" (name f) = true in
       (¬ accepted_type → empty_with (Some file_type_error))
       ∧ (accepted_type → text f = None → empty_with (Some read_error))
       ∧ (∀ content, accepted_type → text f = Some content →
            (parseCsv content = Rejected format_error
             → empty_with (Some format_error))
            ∧ (∀ table, parseCsv content = Resolved table →
                 csvHeaders st' = headers table ∧ csvData st' = data table
                 ∧ csvHeaders st' ≠ [] ∧ csvError st' = None)
            ∧ (parseCsv content = Rejected format_error
               ∨ ∃ table, parseCsv content = Resolved table)))
  ∧ csvFile st' = file
  ∧ fieldMapping st' = FieldMapping.empty
  ∧ inputMode st' = inputMode st
  ∧ userProductUrl st' = userProductUrl st
  ∧ competitorUrls st' = competitorUrls st.
Proof.
  intros st' empty_with. unfold empty_with, st'. clear empty_with st'.
  split; [by intros ->|]. split.
  - intros f ->.
    unfold handleFileChange, parseCsvFile.
    destruct (negb (Str.includes "csv" (type f)) && negb (Str.endsWith ".csv" (name f)))
      eqn:Htype.
    { apply andb_true_iff in Htype as [H1%negb_true_iff H2%negb_true_iff].
      split; [done|].
      split; [intros [?|?]; congruence|]. intros content [?|?]; congruence. }
    split.
    { intros Hno. exfalso. apply Hno.
      apply andb_false_iff in Htype as [H|H]; apply negb_false_iff in H; auto. }
    split; [by intros _ ->|].
    intros content _ ->. split; [by intros ->|]. split.
    + intros table Hparse. rewrite Hparse. simpl. do 2 (split; [done|]).
      split; [|done]. unfold parseCsv in Hparse.
      destruct (length (csv_lines content) <? 2); [done|].
      injection Hparse as <-. simpl.
      pose proof (split_where_nonempty (λ d _, Ascii.eqb d Char.comma)
                    (hd "" (csv_lines content))) as Hne.
      unfold Str.split. by destruct (Str.split_where _ _).
    + unfold parseCsv. destruct (length (csv_lines content) <? 2); eauto.
  - unfold handleFileChange. destruct file as [f|]; [|done].
    destruct (negb _ && negb _); [done|].
    by destruct (parseCsvFile f).
Qed.

(** X23: a name column read from the prototype, as the column
    [__proto__] of any parsed file is, ends the submission with the text of the
    [TypeError] of the call of [trim] as the CSV error, and nothing is
    handed to [onAnalyze]; so does a price column read from the
    prototype when the first row has a name. *)
Theorem handleSubmit_type_error message content mapping table :
  parseCsv content = Resolved table →
  FieldMapping.productName mapping ≠ "" →
  FieldMapping.currentPrice mapping ≠ "" →
  let st := uploaded content mapping in
  (FieldMapping.productName mapping = "__proto__" →
   handleSubmit message false st
   = (setCsvError (Some (message (not_a_function "productName.trim"))) st, None))
  ∧ (FieldMapping.currentPrice mapping = "__proto__" →
     (∃ row, data table !! 0 = Some row ∧ named mapping row) →
     handleSubmit message false st
     = (setCsvError
          (Some (message
             (not_a_function "(row[fieldMapping.currentPrice] || '').replace"))) st,
        None)).
Proof.
  intros Hparse Hname Hprice st.
  assert (inputMode st = csv ∧ fieldMapping st = mapping
          ∧ csvData st = data table
          ∧ csvFile st = Some {| name := "products.csv"; type := "text/csv";
                                 text := Some content |}) as (Hmode & Hmap & Hdata & Hfile).
  { unfold st, uploaded, handleFileChange, parseCsvFile. simpl.
    by rewrite Hparse. }
  assert (∃ row rows, data table = row :: rows ∧ row !! "__proto__" = None)
    as (row & rows & Hrows & Hproto).
  { unfold parseCsv in Hparse.
    destruct (length (csv_lines content) <? 2) eqn:Hlen; [done|].
    injection Hparse as <-. simpl.
    apply Nat.ltb_ge in Hlen.
    destruct (csv_lines content) as [|l [|l' ls]]; simpl in *; [lia..|].
    eexists _, _. split; [done|]. apply row_object_proto. }
  assert (inherits row "__proto__") as Hin.
  { split; [done|]. apply (bool_decide_unpack _). by vm_compute. }
  pose proof (handleSubmit_csv_ready message st _ Hmode Hfile) as Hready.
  rewrite Hmap in Hready. specialize (Hready Hname Hprice).
  rewrite Hdata, Hrows in Hready.
  split.
  - intros Hcol. rewrite Hready.
    assert (normalize mapping (row :: rows) = throw (not_a_function "productName.trim"))
      as ->; [|done].
    apply (reduce_from_normalize_throw mapping [] row rows); [done|].
    unfold row_throws. rewrite Hcol. by rewrite decide_True.
  - intros Hcol (row' & Hrow' & Hnamed). rewrite Hrows in Hrow'.
    injection Hrow' as <-. rewrite Hready.
    assert (normalize mapping (row :: rows)
            = throw (not_a_function "(row[fieldMapping.currentPrice] || '').replace"))
      as ->; [|done].
    apply (reduce_from_normalize_throw mapping [] row rows); [done|].
    unfold row_throws.
    rewrite decide_False by (by apply named_not_inherits).
    rewrite decide_True; [done|]. split; [done|]. by rewrite Hcol.
Qed.

Lemma handleSubmit_type_error_witness :
  let mapping :=
    {| FieldMapping.productName := "__proto__";
       FieldMapping.currentPrice := "currentPrice";
       FieldMapping.userProductUrl := "";
       FieldMapping.competitorUrls := [] |} in
  let st := uploaded ("__proto__,currentPrice" +:+ nl +:+ "Widget,5") mapping in
  handleSubmit v8_message false st
  = (setCsvError (Some "productName.trim is not a function") st, None).
Proof.
  intros mapping st.
  refine (proj1 (handleSubmit_type_error v8_message
                   ("__proto__,currentPrice" +:+ nl +:+ "Widget,5") mapping
                   {| headers := ["__proto__"; "currentPrice"];
                      data := [{[ "currentPrice" := "5" ]}] |} _ _ _) _);
    by vm_compute.
Defined.
End handlers_more.

(** ** Prices written with surrounding text *)

Section decorated_prices.
Import Grammar.
Implicit Types (s t m pre post : string) (c : ascii).

Lemma strip_non_price_app s t :
  Str.strip_non_price (s +:+ t) = Str.strip_non_price s +:+ Str.strip_non_price t.
Proof.
  induction s as [|c s IH]; [done|]. rewrite app_String. simpl.
  destruct (Char.is_price_char c); by rewrite ?app_String, IH.
Qed.

Lemma strip_non_price_none s :
  Forall (λ c, Char.is_price_char c = false) (list_ascii_of_string s) →
  Str.strip_non_price s = "".
Proof.
  induction s as [|c s IH]; [done|]. simpl. intros [Hc Hs]%Forall_cons.
  rewrite Hc. auto.
Qed.

Lemma strip_non_price_digits s : digits s → Str.strip_non_price s = s.
Proof.
  induction s as [|c s IH]; [done|]. intros [Hc Hs]%digits_cons. simpl.
  unfold Char.is_price_char. rewrite Hc. simpl. by rewrite IH.
Qed.

Lemma strip_non_price_mantissa m : Mantissa m → Str.strip_non_price m = m.
Proof.
  intros [ip fp Hip Hfp|fp Hfp|ip Hip].
  - rewrite strip_non_price_app, strip_non_price_digits by apply Hip.
    simpl. by rewrite strip_non_price_digits.
  - simpl. by rewrite strip_non_price_digits by apply Hfp.
  - apply strip_non_price_digits, Hip.
Qed.

(** X17: in a row with a name, a price cell that holds one plain
    decimal number, with a minus sign right before it or not, and
    around it any text free of digits, dots and minus signs (a currency
    symbol, a unit, spaces), is accepted at the value of that number. *)
Theorem decorated_decimal_price fm acc (row : gmap string string) index pre m post
    (neg : bool) :
  named fm row →
  row !! FieldMapping.currentPrice fm
  = Some (pre +:+ (if neg then "-" else "") +:+ m +:+ post) →
  Forall (λ c, Char.is_price_char c = false) (list_ascii_of_string pre) →
  Forall (λ c, Char.is_price_char c = false) (list_ascii_of_string post) →
  Mantissa m →
  normalize_row fm acc row index
  = normal {| validProducts := validProducts acc ++ [product_of fm row];
              errors := errors acc |}
  ∧ CsvProduct.currentPrice (product_of fm row)
    = Number.of_decimal neg (significand m) (- Z.of_nat (fraction_digits m)).
Proof.
  intros Hname Hcell Hpre Hpost Hm.
  assert (¬ inherits row (FieldMapping.currentPrice fm)) as Hown
    by (intros [? _]; congruence).
  assert (price_string fm row = (if neg then "-" else "") +:+ m) as Hprice.
  { unfold price_string. rewrite Hcell. simpl. rewrite !strip_non_price_app.
    rewrite (strip_non_price_none pre), (strip_non_price_none post) by done.
    rewrite (strip_non_price_mantissa m Hm), app_empty_l, app_empty_r.
    by destruct neg. }
  assert (parseFloat (price_string fm row)
          = Number.of_decimal neg (significand m) (- Z.of_nat (fraction_digits m)))
    as Hvalue.
  { rewrite Hprice. destruct (parseFloat_mantissa m Hm) as [Hpos Hneg].
    destruct neg; rewrite ?app_String, app_empty_l; [exact Hneg|exact Hpos]. }
  split; [|by simpl].
  apply normalize_row_valid; [done|done| |by rewrite Hvalue, of_decimal_not_NaN].
  rewrite Hprice. destruct (Mantissa_head m Hm) as (c & m' & -> & _).
  by destruct neg.
Qed.

Lemma decorated_decimal_price_witness :
  let row : gmap string string :=
    {[ "productName" := "Widget"; "currentPrice" := "USD -12.50 each" ]} in
  CsvProduct.currentPrice (product_of (self_mapping []) row)
  = Number.of_decimal true 1250 (-2).
Proof.
  intros row.
  destruct (decorated_decimal_price (self_mapping [])
              {| validProducts := []; errors := [] |} row 0 "USD " "12.50" " each" true)
    as [_ Hprice].
  - apply (bool_decide_unpack (named _ _)). by vm_compute.
  - by vm_compute.
  - repeat (apply Forall_cons; split; [by vm_compute|]). apply Forall_nil_2.
  - repeat (apply Forall_cons; split; [by vm_compute|]). apply Forall_nil_2.
  - apply (M_int_dot "12" "50").
    + split; [done|]. repeat (apply digits_cons; split; [done|]). apply digits_nil.
    + repeat (apply digits_cons; split; [done|]). apply digits_nil.
  - rewrite Hprice. by vm_compute.
Defined.
End decorated_prices.

(** ** The batch response: unwrapping the fenced payload *)

Section batch_response.
Implicit Types (s pre payload post : string) (c : ascii).

Lemma closes_no_fence c s :
  c ≠ backtick →
  (c = Char.LF → Str.drop_prefix Gemini.fence_close s = None) →
  Gemini.closes (String c s) = false.
Proof.
  intros Hc Hs. unfold Gemini.closes.
  assert (Str.drop_prefix Gemini.fence_close (String c s) = None) as ->.
  { cbn [Str.drop_prefix Gemini.fence_close].
    by destruct (Ascii.eqb_spec "`" c) as [<-|_]. }
  cbn [Str.drop_prefix]. destruct (Ascii.eqb_spec Char.LF c) as [<-|_]; [|done].
  change (Str.drop_prefix "```" s) with (Str.drop_prefix Gemini.fence_close s).
  by rewrite Hs.
Qed.

Lemma drop_fence_close_no_backtick s :
  match s with String c _ => c ≠ backtick | "" => True end →
  Str.drop_prefix Gemini.fence_close s = None.
Proof.
  destruct s as [|c s]; [done|]. intros Hc. cbn [Str.drop_prefix Gemini.fence_close].
  by destruct (Ascii.eqb_spec "`" c) as [<-|_].
Qed.

(** The lazy group stops at the closing fence that follows a text with
    no backtick. *)
Lemma lazy_group_payload payload post :
  Str.count backtick payload = 0 →
  Gemini.lazy_group (payload +:+ nl +:+ Gemini.fence_close +:+ post) = Some payload.
Proof.
  intros Hp. induction payload as [|c payload IH].
  - rewrite app_empty_l. by destruct post.
  - simpl in Hp. destruct (Ascii.eqb_spec c backtick) as [->|Hc]; [done|].
    rewrite app_String.
    change (Gemini.lazy_group (String c ?s))
      with (if Gemini.closes (String c s) then Some ""
            else String c <$> Gemini.lazy_group s).
    rewrite closes_no_fence; [by rewrite IH|done|].
    intros _. apply drop_fence_close_no_backtick.
    destruct payload as [|d payload]; [done|]. rewrite app_String.
    simpl in Hp. by destruct (Ascii.eqb_spec d backtick).
Qed.

(** Text with no backtick before the opening fence is skipped. *)
Lemma match_fence_skip pre s :
  Str.count backtick pre = 0 →
  Gemini.match_fence (pre +:+ s) = Gemini.match_fence s.
Proof.
  intros Hp. induction pre as [|c pre IH]; [done|].
  simpl in Hp. destruct (Ascii.eqb_spec c backtick) as [->|Hc]; [done|].
  rewrite app_String.
  change (Gemini.match_fence (String c ?t))
    with (match Str.drop_prefix Gemini.fence_open (String c t) with
          | Some rest =>
              match (match rest with
                     | String d rest' =>
                         if Ascii.eqb d Char.LF then Gemini.lazy_group rest' else None
                     | "" => None
                     end) with
              | Some group => Some group
              | None =>
                  match Gemini.lazy_group rest with
                  | Some group => Some group
                  | None => Gemini.match_fence t
                  end
              end
          | None => Gemini.match_fence t
          end).
  assert (Str.drop_prefix Gemini.fence_open (String c (pre +:+ s)) = None) as ->.
  { cbn [Str.drop_prefix Gemini.fence_open].
    by destruct (Ascii.eqb_spec "`" c) as [<-|_]. }
  by apply IH.
Qed.

Lemma match_fence_fenced payload post :
  Str.count backtick payload = 0 →
  Gemini.match_fence
    (Gemini.fence_open +:+ nl +:+ payload +:+ nl +:+ Gemini.fence_close +:+ post)
  = Some payload.
Proof.
  intros Hp.
  pose proof (lazy_group_payload payload post Hp) as Hgroup.
  unfold Gemini.fence_open. rewrite !app_String, app_empty_l.
  unfold nl at 1. rewrite app_String, app_empty_l.
  cbn [Gemini.match_fence Str.drop_prefix Gemini.fence_open Ascii.eqb Bool.eqb].
  simpl Ascii.eqb. cbv iota. by rewrite Hgroup.
Qed.

(** X18: a reply that wraps a payload in a json fence, each fence on a
    line of its own, with any prose around it, is unwrapped to exactly
    the payload, provided the payload is not empty and neither it nor
    the prose before it holds a backtick. *)
Theorem batch_payload_unwraps_fence pre payload post :
  let reply := pre +:+ Gemini.fence_open +:+ nl +:+ payload +:+ nl
               +:+ Gemini.fence_close +:+ post in
  Str.trim reply = reply →
  Str.count backtick pre = 0 →
  Str.count backtick payload = 0 →
  payload ≠ "" →
  Gemini.batch_payload reply = inr payload.
Proof.
  intros reply Htrim Hpre Hpayload Hne.
  unfold Gemini.batch_payload, Gemini.batch_json_text. rewrite Htrim.
  unfold reply. rewrite match_fence_skip, match_fence_fenced by done.
  rewrite (decide_True (P := payload ≠ "")) by done. by rewrite decide_False.
Qed.

Lemma batch_payload_unwraps_fence_witness :
  Gemini.batch_payload
    ("Here is the analysis:" +:+ nl +:+ Gemini.fence_open +:+ nl
     +:+ "{ 'results': [] }" +:+ nl +:+ Gemini.fence_close +:+ nl +:+ "Done.")
  = inr "{ 'results': [] }".
Proof.
  apply (batch_payload_unwraps_fence ("Here is the analysis:" +:+ nl)
           "{ 'results': [] }" (nl +:+ "Done.")); by vm_compute.
Defined.

(** X19: the reply is refused before parsing exactly when it is blank,
    with the message for an empty response; in every other case a
    non-empty text goes to the parser, and without any backtick in the
    reply that text is the reply trimmed. *)
Theorem batch_payload_error_iff_blank reply :
  (Gemini.batch_payload reply
   = inl (Gemini.batch_failure Gemini.empty_response_error)
   ↔ Str.all_white_space reply)
  ∧ (∀ text, Gemini.batch_payload reply = inr text → text ≠ "")
  ∧ (∀ message, Gemini.batch_payload reply = inl message →
       message = Gemini.batch_failure Gemini.empty_response_error)
  ∧ (Str.count backtick reply = 0 → ¬ Str.all_white_space reply →
     Gemini.batch_payload reply = inr (Str.trim reply)).
Proof.
  assert (Gemini.batch_json_text reply = "" ↔ Str.all_white_space reply) as Hblank.
  { rewrite <- trim_empty_iff. unfold Gemini.batch_json_text.
    destruct (Gemini.match_fence (Str.trim reply)) as [group|] eqn:Hm; [|done].
    destruct (decide (group ≠ "")) as [Hg|Hg]; [|done].
    split; [done|]. intros Ht. rewrite Ht in Hm. by vm_compute in Hm. }
  unfold Gemini.batch_payload.
  split; [|split; [|split]].
  - destruct (decide (Gemini.batch_json_text reply = "")) as [He|He].
    + split; [by intros _; apply Hblank|done].
    + split; [done|]. by intros ?%Hblank.
  - intros text. by destruct (decide _); intros [= <-].
  - intros message. by destruct (decide _); intros [= <-].
  - intros Hcount Hnb.
    assert (Gemini.match_fence (Str.trim reply) = None) as Hnone.
    { assert (Str.count backtick (Str.trim reply) = 0) as Ht.
      { assert (∀ s, Str.count backtick (Str.trimStart s) ≤ Str.count backtick s) as Hs.
        { intros s. induction s as [|c s IH]; simpl; [lia|].
          destruct (Char.is_white_space c); simpl; lia. }
        assert (∀ s, Str.count backtick (Str.trimEnd s) ≤ Str.count backtick s) as He.
        { intros s. induction s as [|c s IH]; simpl; [lia|].
          destruct (Str.trimEnd s) as [|d t].
          - destruct (Char.is_white_space c); simpl in *; lia.
          - simpl in *. lia. }
        unfold Str.trim. specialize (Hs reply).
        specialize (He (Str.trimStart reply)). lia. }
      rewrite <- (app_empty_r (Str.trim reply)).
      by rewrite match_fence_skip. }
    unfold Gemini.batch_json_text. rewrite Hnone.
    rewrite decide_False; [done|]. by rewrite trim_empty_iff.
Qed.
End batch_response.

(** ** The sample file *)

Section sample_file.

Lemma filter_all {A} (P : A → Prop) `{∀ x, Decision (P x)} (l : list A) :
  Forall P l → filter P l = l.
Proof.
  induction 1 as [|x l Hx _ IH]; [done|].
  by rewrite filter_cons, decide_True, IH.
Qed.

(** X20: the sample file that the form offers for download is accepted
    by the form in full. With the name and price columns mapped to the
    columns of those names, and whatever is chosen for the two optional
    mappings, submitting dispatches one product for each of the three
    data lines and leaves no error or warning; the quoted name keeps
    its comma and the dollar sign is dropped from the price. With both
    competitor columns selected, the empty cells of the last line give
    no competitor. *)
Theorem sample_file_accepted (message : TypeError → string) productUrl competitors :
  let mapping :=
    {| FieldMapping.productName := "productName";
       FieldMapping.currentPrice := "currentPrice";
       FieldMapping.userProductUrl := productUrl;
       FieldMapping.competitorUrls := competitors |} in
  let st := uploaded csvContent mapping in
  let products := product_of mapping <$> csvData st in
  handleSubmit message false st = (setCsvError None st, Some (CsvInput products))
  ∧ CsvProduct.productName <$> products
    = [str "Pro Camera X1, with stand"; str "Wireless Headphones Z";
       str "Smart Fitness Watch V2"]
  ∧ CsvProduct.currentPrice <$> products
    = [Number.of_decimal false 49999 (-2); Number.of_decimal false 14900 (-2);
       Number.of_decimal false 22950 (-2)]
  ∧ (competitors = ["competitorUrl_1"; "competitorUrl_2"] →
     length <$> (CsvProduct.competitorUrls <$> products) = [2; 2; 0]).
Proof.
  intros mapping st products.
  assert (inputMode st = csv) as Hmode by (vm_compute; reflexivity).
  assert (fieldMapping st = mapping) as Hmapping by (vm_compute; reflexivity).
  assert (csvFile st = Some {| name := "products.csv"; type := "text/csv";
                               text := Some csvContent |}) as Hfile
    by (vm_compute; reflexivity).
  assert (length products = 3) as Hlength by (vm_compute; reflexivity).
  assert (normalize mapping (csvData st)
          = normal {| validProducts := products; errors := [] |}) as Hnorm.
  { assert (filter (accepted mapping) (csvData st) = csvData st) as Hvalid.
    { apply filter_all. apply (bool_decide_unpack _). vm_compute. exact I. }
    assert (omap id (imap (λ i, row_error mapping (0 + i)) (csvData st)) = [])
      as Herr by (vm_compute; reflexivity).
    assert (Forall (λ row, row_throws mapping row = None) (csvData st)) as Hall.
    { apply (bool_decide_unpack _). vm_compute. exact I. }
    unfold normalize, reduce_throwing.
    rewrite (reduce_from_normalize mapping _ _ _ Hall), Hvalid, Herr.
    cbn [validProducts errors]. rewrite app_nil_l, app_nil_r. reflexivity. }
  split; [|split; [|split]].
  - rewrite (handleSubmit_csv_ready message st _ Hmode Hfile);
      [|by rewrite Hmapping..].
    rewrite Hmapping, Hnorm.
    cbn [validProducts errors].
    rewrite (decide_False (P := length products = 0)) by (rewrite Hlength; lia).
    rewrite (decide_False (P := 0 < length [])) by (cbn [length]; lia).
    reflexivity.
  - vm_compute. reflexivity.
  - vm_compute. reflexivity.
  - intros ->. vm_compute. reflexivity.
Qed.
End sample_file.
